(** * Election choropleth dashboard: colour scale, share normalisation,
      search index and viewport control

    A shallow embedding of the dashboard's TypeScript sources
    ([ChoroplethLayer.tsx], [SearchBar.tsx], [MapView.tsx], [types.ts]).

    JavaScript numbers are modelled by the real numbers: every arithmetic
    operation is taken to be exact, so binary64 rounding, infinities and
    overflow are left out of the model.  The one [NaN] the sources can
    produce from real inputs, [Math.sqrt] of a negative number, is kept
    (see [Js.Math_sqrt]).  Strings are sequences of the code units
    U+0000 to U+00FF (Basic Latin and Latin-1 Supplement, which hold the
    letters of the place names, [N] with tilde among them), with the white
    space and the letter case JavaScript gives these code units.

    What the host provides is either a parameter ([localeCompare],
    [toFixed]) or modelled by its documented behaviour ([Array.sort] as a
    stable sort, a [Map] as an association list in insertion order,
    Leaflet's [LatLngBounds] as an optional box).  React's reference cells
    are a record passed to [getStyle]; an effect is a function from its
    inputs to the call it makes. *)

From Stdlib Require Import String Ascii List Bool ZArith Reals Lra Lia.
From Stdlib Require Import Permutation Sorted.
From Stdlib Require OrderedTypeEx.
Import ListNotations.

(** ** JavaScript primitives used by the sources *)

Module Js.

Local Open Scope R_scope.

(** [x ?? d]: the default replaces an absent ([undefined]/[null]) value. *)
Definition nullish {A : Type} (x : option A) (d : A) : A :=
  match x with
  | Some v => v
  | None => d
  end.

(** [x || d] on numbers: [0] is the only falsy real number. *)
Definition or_else (x d : R) : R :=
  if Req_dec_T x 0 then d else x.

(** [x > y], [x >= y], [x <= y] as booleans. *)
Definition gtb (x y : R) : bool := if Rlt_dec y x then true else false.
Definition geb (x y : R) : bool := if Rle_dec y x then true else false.
Definition leb (x y : R) : bool := if Rle_dec x y then true else false.

Definition Math_min (x y : R) : R := Rmin x y.

(** [Math.sqrt]: [None] stands for the [NaN] returned on a negative
    argument. *)
Definition Math_sqrt (x : R) : option R :=
  if Rle_dec 0 x then Some (sqrt x) else None.

(** [Math.round]: the nearest integer, ties towards [+oo], that is
    [floor (x + 1/2)]. *)
Definition Math_round (x : R) : Z := Int_part (x + / 2).

End Js.

Import Js.

(** ** String.prototype methods used by SearchBar.tsx *)

Module Str.

Local Open Scope nat_scope.

(** White space of the regular expression class [\s] and of [trim]: the
    controls U+0009 to U+000D, the space and the no-break space U+00A0. *)
Definition isSpace (c : ascii) : bool :=
  let n := nat_of_ascii c in
  ((9 <=? n) && (n <=? 13)) || (n =? 32) || (n =? 160).

(** The lower-case mapping of a character: [A] to [Z] and the capital
    letters U+00C0 to U+00DE, the multiplication sign U+00D7 apart, have
    their small letter 32 places on. *)
Definition lowerChar (c : ascii) : ascii :=
  let n := nat_of_ascii c in
  if ((65 <=? n) && (n <=? 90)) ||
     ((192 <=? n) && (n <=? 222) && negb (n =? 215))
  then ascii_of_nat (n + 32) else c.

Fixpoint toLowerCase (s : string) : string :=
  match s with
  | EmptyString => EmptyString
  | String c s' => String (lowerChar c) (toLowerCase s')
  end.

Fixpoint trimStart (s : string) : string :=
  match s with
  | EmptyString => EmptyString
  | String c s' => if isSpace c then trimStart s' else s
  end.

(** [trimEnd] drops the longest white-space suffix. *)
Fixpoint trimEnd (s : string) : string :=
  match s with
  | EmptyString => EmptyString
  | String c s' =>
      match trimEnd s' with
      | EmptyString => if isSpace c then EmptyString else String c EmptyString
      | t => String c t
      end
  end.

Definition trim (s : string) : string := trimEnd (trimStart s).

(** [s.split(/\s+/)]: the pieces of [s] between its maximal runs of white
    space; a run at either end of [s] leaves an empty piece there, and the
    result is never empty. *)
Fixpoint splitWs (s : string) : list string :=
  match s with
  | EmptyString => [EmptyString]
  | String c s' =>
      if isSpace c then
        match s' with
        | String c' _ => if isSpace c' then splitWs s' else EmptyString :: splitWs s'
        | EmptyString => EmptyString :: splitWs s'
        end
      else
        match splitWs s' with
        | tok :: rest => String c tok :: rest
        | [] => [String c EmptyString]
        end
  end.

(** [s.startsWith(t)] *)
Fixpoint startsWith (s t : string) {struct t} : bool :=
  match t, s with
  | EmptyString, _ => true
  | String _ _, EmptyString => false
  | String ct t', String cs s' => Ascii.eqb cs ct && startsWith s' t'
  end.

(** [s.includes(t)]: [t] occurs in [s] at some position. *)
Fixpoint includes (s t : string) : bool :=
  startsWith s t ||
  match s with
  | EmptyString => false
  | String _ s' => includes s' t
  end.

(** Truthiness of a string: the empty string is the only falsy one. *)
Definition truthy (s : string) : bool :=
  match s with
  | EmptyString => false
  | String _ _ => true
  end.

End Str.

(** ** types.ts *)

(** [BarangayProperties].  The index signature [[key: string]] carries the
    per-candidate vote counts [v_{candidateId}]; it is an association list
    from keys to numbers.  [av] is optional because the sources read it as
    [props.av ?? 0]. *)
Module BP.

Record t : Type := mk {
  p : string;                  (* province *)
  m : string;                  (* municipality *)
  b : string;                  (* barangay *)
  rv : R;                      (* registered voters *)
  av : option R;               (* actual voters *)
  dyn : list (string * R)      (* v_{candidateId} vote counts *)
}.

(** [props[key]] on the dynamic keys. *)
Fixpoint get (key : string) (o : list (string * R)) : option R :=
  match o with
  | [] => None
  | (k, v) :: o' => if String.eqb k key then Some v else get key o'
  end.

End BP.

Definition BarangayProperties : Type := BP.t.

(** A position [(lat, lng)]; a geometry is represented by its positions. *)
Definition LatLng : Type := (R * R)%type.
Definition Geometry : Type := list LatLng.

(** [BarangayFeature]: the sources guard both [feat.properties] and
    [feat.geometry] against absence. *)
Record BarangayFeature : Type := {
  properties : option BarangayProperties;
  geometry : option Geometry
}.

Record BarangayCollection : Type := {
  features : list BarangayFeature
}.

(** ** SearchBar.tsx: [SearchResult] *)

Inductive SearchType : Type :=
| barangayType
| municipalityType.

Record SearchResult : Type := {
  label : string;
  type : SearchType;
  province : string;
  municipality : string;
  barangay : option string
}.

(** ** ChoroplethLayer.tsx: share normalisation *)

Section Normalisation.

Local Open Scope R_scope.

(** The template literal [`v_${cId}`]. *)
Definition voteKey (cId : string) : string := ("v_" ++ cId)%string.

(** [(props[`v_${cId}`] as number) ?? 0] *)
Definition votesOf (props : BarangayProperties) (cId : string) : R :=
  nullish (BP.get (voteKey cId) (BP.dyn props)) 0.

(** [props.av ?? 0] *)
Definition avOf (props : BarangayProperties) : R :=
  nullish (BP.av props) 0.

(** One iteration of the loop of [computeMaxShare]. *)
Definition maxShareStep (cId : string) (max : R) (feat : BarangayFeature) : R :=
  match properties feat with
  | None => max                                   (* if (!props) continue *)
  | Some props =>
      let votes := votesOf props cId in
      let av := avOf props in
      if gtb av 0 then
        let share := votes / av in
        if gtb share max then share else max
      else max
  end.

(** [computeMaxShare]: [let max = 0; for (...) {...}; return max || 1]. *)
Definition computeMaxShare (data : BarangayCollection) (cId : string) : R :=
  let max := fold_left (maxShareStep cId) (features data) 0 in
  or_else max 1.

(** The shares the scan looks at: one per feature that has a property
    record and a positive [av]. *)
Definition observedShares (data : BarangayCollection) (cId : string) : list R :=
  flat_map
    (fun feat =>
       match properties feat with
       | Some props =>
           if gtb (avOf props) 0 then [votesOf props cId / avOf props] else []
       | None => []
       end)
    (features data).

(** The largest of a list of numbers and [0]. *)
Definition maxFromZero (l : list R) : R := fold_right Rmax 0 l.

Definition observedMax (data : BarangayCollection) (cId : string) : R :=
  maxFromZero (observedShares data cId).

End Normalisation.

(** ** ChoroplethLayer.tsx: colour scale *)

(** A CSS colour: a literal such as ["#fff"], or the text
    [`rgb(${r}, ${g}, ${b})`] of three numbers; [RgbNaN] is that text when
    the numbers are [NaN]. *)
Inductive CssColor : Type :=
| Css (text : string)
| Rgb (r g b : Z)
| RgbNaN.

Section ColorScale.

Local Open Scope R_scope.

(** The value of a character of the class [[a-f\d]] under the flag [i]. *)
Definition hexDigit (c : ascii) : option Z :=
  let n := Z.of_nat (nat_of_ascii c) in
  if ((48 <=? n) && (n <=? 57))%Z then Some (n - 48)%Z
  else if ((97 <=? n) && (n <=? 102))%Z then Some (n - 87)%Z
  else if ((65 <=? n) && (n <=? 70))%Z then Some (n - 55)%Z
  else None.

(** [parseInt(pair, 16)] on a group of two hexadecimal digits. *)
Definition parseHexPair (c1 c2 : ascii) : option Z :=
  match hexDigit c1, hexDigit c2 with
  | Some h, Some l => Some (16 * h + l)%Z
  | _, _ => None
  end.

(** The optional [#] at the head of the regular expression. *)
Definition stripHash (hex : string) : string :=
  match hex with
  | String c rest => if Ascii.eqb c "#" then rest else hex
  | EmptyString => hex
  end.

(** [hexToRgb]: the regular expression
    [/^#?([a-f\d]{2})([a-f\d]{2})([a-f\d]{2})$/i], [parseInt(., 16)] on its
    three groups, and the fallback colour when it does not match. *)
Definition hexToRgb (hex : string) : Z * Z * Z :=
  match stripHash hex with
  | String r1 (String r2 (String g1 (String g2 (String b1 (String b2 EmptyString))))) =>
      match parseHexPair r1 r2, parseHexPair g1 g2, parseHexPair b1 b2 with
      | Some r, Some g, Some b => (r, g, b)
      | _, _, _ => (251, 146, 60)%Z
      end
  | _ => (251, 146, 60)%Z
  end.

(** [getFillColor]: single hue, dark towards the candidate colour. *)
Definition getFillColor (share : R) (color : string) : CssColor :=
  let '(r, g, b) := hexToRgb color in
  match Math_sqrt (Math_min share 1) with
  | None => RgbNaN
  | Some t =>
      let minBrightness := 0.08 in
      let factor := minBrightness + t * (1 - minBrightness) in
      Rgb (Math_round (IZR r * factor))
          (Math_round (IZR g * factor))
          (Math_round (IZR b * factor))
  end.

(** A gradient stop [[position, r, g, b]]. *)
Definition Stop : Type := (R * R * R * R)%type.

Definition stopPos (s : Stop) : R := let '(x, _, _, _) := s in x.
Definition stopR (s : Stop) : R := let '(_, r, _, _) := s in r.
Definition stopG (s : Stop) : R := let '(_, _, g, _) := s in g.
Definition stopB (s : Stop) : R := let '(_, _, _, b) := s in b.

Definition MULTI_HUE_STOPS : list Stop :=
  [ (0.0, 10, 10, 30);      (* near-black navy *)
    (0.15, 15, 60, 90);     (* deep blue *)
    (0.3, 20, 120, 120);    (* teal *)
    (0.45, 40, 170, 100);   (* green *)
    (0.6, 160, 200, 40);    (* lime-yellow *)
    (0.75, 240, 180, 30);   (* amber *)
    (0.9, 250, 100, 40);    (* orange-red *)
    (1.0, 255, 240, 220) ]. (* hot white *)

(** The loop of [getMultiHueFillColor]: the first pair of neighbouring
    stops with [t >= stops[i][0] && t <= stops[i + 1][0]]. *)
Fixpoint findStops (t : R) (stops : list Stop) : option (Stop * Stop) :=
  match stops with
  | s0 :: ((s1 :: _) as rest) =>
      if geb t (stopPos s0) && leb t (stopPos s1) then Some (s0, s1)
      else findStops t rest
  | _ => None
  end.

Definition firstStop : Stop := hd (0, 0, 0, 0) MULTI_HUE_STOPS.
Definition lastStop : Stop := last MULTI_HUE_STOPS (0, 0, 0, 0).

(** [getMultiHueFillColor].  With [t] a [NaN] every comparison of the loop
    fails and the interpolation gives [NaN] channels. *)
Definition getMultiHueFillColor (share : R) : CssColor :=
  match Math_sqrt (Math_min share 1) with
  | None => RgbNaN
  | Some t =>
      let '(lo, hi) := nullish (findStops t MULTI_HUE_STOPS) (firstStop, lastStop) in
      let range := or_else (stopPos hi - stopPos lo) 1 in
      let f := (t - stopPos lo) / range in
      let r := Math_round (stopR lo + (stopR hi - stopR lo) * f) in
      let g := Math_round (stopG lo + (stopG hi - stopG lo) * f) in
      let b := Math_round (stopB lo + (stopB hi - stopB lo) * f) in
      Rgb r g b
  end.

(** Perceptual brightness (luma) of a colour with numeric channels. *)
Definition brightness (c : CssColor) : R :=
  match c with
  | Rgb r g b => 0.299 * IZR r + 0.587 * IZR g + 0.114 * IZR b
  | _ => 0
  end.

End ColorScale.

(** ** ChoroplethLayer.tsx: per-feature style *)

Record PathOptions : Type := {
  fillColor : CssColor;
  fillOpacity : R;
  weight : R;
  color : CssColor;
  opacity : R
}.

(** The reference cells [getStyle] reads. *)
Record Refs : Type := {
  candidateIdRef : string;
  colorRef : string;
  searchRef : option SearchResult;
  highContrastRef : bool;
  maxShareRef : R
}.

Section Style.

Local Open Scope R_scope.

(** [props.b === sel.barangay], where [sel.barangay] may be [undefined]. *)
Definition strictEqOpt (s : string) (o : option string) : bool :=
  match o with
  | Some s' => String.eqb s s'
  | None => false
  end.

(** [av > 0 ? votes / av : 0] *)
Definition shareOf (props : BarangayProperties) (cId : string) : R :=
  let votes := votesOf props cId in
  let av := avOf props in
  if gtb av 0 then votes / av else 0.

(** [maxShareRef.current > 0 ? share / maxShareRef.current : 0] *)
Definition normalizedOf (maxShare : R) (share : R) : R :=
  if gtb maxShare 0 then share / maxShare else 0.

(** The [isMatch] flag of [getStyle]. *)
Definition isMatch (sel : option SearchResult) (props : BarangayProperties) : bool :=
  match sel with
  | None => true
  | Some sel =>
      match type sel with
      | municipalityType =>
          String.eqb (BP.m props) (municipality sel) &&
          String.eqb (BP.p props) (province sel)
      | barangayType =>
          strictEqOpt (BP.b props) (barangay sel) &&
          String.eqb (BP.m props) (municipality sel) &&
          String.eqb (BP.p props) (province sel)
      end
  end.

(** Truthiness of [sel] and of [sel && isMatch]. *)
Definition isSome {A : Type} (o : option A) : bool :=
  match o with
  | Some _ => true
  | None => false
  end.

Definition getStyle (refs : Refs) (feature : option BarangayFeature) : PathOptions :=
  match feature with
  | Some {| properties := Some props |} =>
      let share := shareOf props (candidateIdRef refs) in
      let normalized := normalizedOf (maxShareRef refs) share in
      let sel := searchRef refs in
      let isMatch := isMatch sel props in
      {| fillColor :=
           if highContrastRef refs then getMultiHueFillColor normalized
           else getFillColor normalized (colorRef refs);
         fillOpacity := if isSome sel then (if isMatch then 0.9 else 0.15) else 0.85;
         weight := if isSome sel && isMatch then 1.5 else 0.3;
         color := if isSome sel && isMatch then Css "#fff" else Css "#222";
         opacity := if isSome sel && isMatch then 0.8 else 0.4 |}
  | _ =>
      {| fillColor := Css "#000"; fillOpacity := 0.8; weight := 0.3;
         color := Css "#222"; opacity := 0.4 |}
  end.

(** The effect that restyles when the candidate, its colour or the
    contrast mode changes: it writes the reference cells, [maxShareRef]
    from [computeMaxShare], and leaves [searchRef] alone. *)
Definition updateStyleRefs (data : BarangayCollection) (candidateId color : string)
  (highContrast : bool) (refs : Refs) : Refs :=
  {| candidateIdRef := candidateId;
     colorRef := color;
     searchRef := searchRef refs;
     highContrastRef := highContrast;
     maxShareRef := computeMaxShare data candidateId |}.

(** The effect that restyles when the search selection changes. *)
Definition updateSearchRef (searchSelection : option SearchResult) (refs : Refs) : Refs :=
  {| candidateIdRef := candidateIdRef refs;
     colorRef := colorRef refs;
     searchRef := searchSelection;
     highContrastRef := highContrastRef refs;
     maxShareRef := maxShareRef refs |}.

End Style.

(** ** SearchBar.tsx: the search index and its filter *)

Section SearchIndex.

Local Open Scope string_scope.

(** [String.prototype.localeCompare] of the host: negative, zero or
    positive. *)
Variable localeCompare : string -> string -> Z.

(** The comparator [(a, b) => a.label.localeCompare(b.label)]. *)
Definition byLabel (a b : SearchResult) : Z :=
  localeCompare (label a) (label b).

(** [Array.prototype.sort] with a comparator: a stable sort.  [x] goes in
    front of the first element it does not compare greater than. *)
Fixpoint insertSorted {A : Type} (cmp : A -> A -> Z) (x : A) (l : list A) : list A :=
  match l with
  | [] => [x]
  | y :: l' => if (cmp x y <=? 0)%Z then x :: l else y :: insertSorted cmp x l'
  end.

Fixpoint sort {A : Type} (cmp : A -> A -> Z) (l : list A) : list A :=
  match l with
  | [] => []
  | x :: l' => insertSorted cmp x (sort cmp l')
  end.

(** A [Map<string, SearchResult>] in insertion order. *)
Definition StringMap : Type := list (string * SearchResult).

Definition mapHas (k : string) (mp : StringMap) : bool :=
  existsb (fun kv => String.eqb (fst kv) k) mp.

(** [Map.prototype.set]: a present key keeps its place and takes the new
    value, an absent one is appended. *)
Fixpoint mapSet (k : string) (v : SearchResult) (mp : StringMap) : StringMap :=
  match mp with
  | [] => [(k, v)]
  | (k', v') :: mp' =>
      if String.eqb k' k then (k', v) :: mp' else (k', v') :: mapSet k v mp'
  end.

(** [Array.from(map.values())] *)
Definition mapValues (mp : StringMap) : list SearchResult := map snd mp.

(** The template literal [`${p}|${m}`]. *)
Definition muniKey (p m : string) : string := p ++ "|" ++ m.

Definition muniEntry (props : BarangayProperties) : SearchResult :=
  {| label := Str.toLowerCase (BP.m props ++ ", " ++ BP.p props);
     type := municipalityType;
     province := BP.p props;
     municipality := BP.m props;
     barangay := None |}.

Definition brgyEntry (props : BarangayProperties) : SearchResult :=
  {| label := Str.toLowerCase (BP.b props ++ ", " ++ BP.m props ++ ", " ++ BP.p props);
     type := barangayType;
     province := BP.p props;
     municipality := BP.m props;
     barangay := Some (BP.b props) |}.

(** One iteration of the loop of [searchIndex] over [muniSet] and
    [brgyList]. *)
Definition indexStep (st : StringMap * list SearchResult) (feat : BarangayFeature)
  : StringMap * list SearchResult :=
  let '(muniSet, brgyList) := st in
  match properties feat with
  | None => st                                    (* if (!props) continue *)
  | Some props =>
      let muniKey := muniKey (BP.p props) (BP.m props) in
      let muniSet :=
        if negb (mapHas muniKey muniSet) then mapSet muniKey (muniEntry props) muniSet
        else muniSet in
      (muniSet, (brgyList ++ [brgyEntry props])%list)
  end.

Definition searchIndex (data : BarangayCollection) : list SearchResult :=
  match features data with
  | [] => []                                      (* if (!data.features.length) *)
  | _ =>
      let '(muniSet, brgyList) := fold_left indexStep (features data) ([], []) in
      let munis := sort byLabel (mapValues muniSet) in
      (munis ++ sort byLabel brgyList)%list
  end.

End SearchIndex.

(** [results]: the filter of the index by the text typed. *)
Definition results (query : string) (searchIndex : list SearchResult)
  : list SearchResult :=
  if negb (Str.truthy (Str.trim query)) then []
  else
    let q := Str.trim (Str.toLowerCase query) in
    let tokens := Str.splitWs q in
    let matches :=
      filter
        (fun item =>
           let label := Str.toLowerCase (label item) in
           forallb (fun t => Str.includes label t) tokens)
        searchIndex in
    firstn 50 matches.

(** ** MapView.tsx: tooltip share and viewport control *)

Section MapView.

Local Open Scope R_scope.

(** [Number.prototype.toFixed(1)] of the host. *)
Variable toFixed1 : R -> string.

(** The [share] text of [Tooltip]. *)
Definition tooltipShare (props : BarangayProperties) (candidateId : string) : string :=
  let votes := votesOf props candidateId in
  let av := avOf props in
  if gtb av 0 then toFixed1 ((votes / av) * 100) else "0.0"%string.

(** Leaflet's [LatLngBounds]: the south-west and north-east corners, absent
    until a position has been added ([isValid] tells). *)
Definition LatLngBounds : Type := option (LatLng * LatLng).

Definition isValid (bounds : LatLngBounds) : bool := isSome bounds.

(** [bounds.extend(other)]: an invalid [other] adds nothing. *)
Definition extend (bounds other : LatLngBounds) : LatLngBounds :=
  match other, bounds with
  | None, _ => bounds
  | Some _, None => other
  | Some (sw2, ne2), Some (sw, ne) =>
      Some ((Rmin (fst sw2) (fst sw), Rmin (snd sw2) (snd sw)),
            (Rmax (fst ne2) (fst ne), Rmax (snd ne2) (snd ne)))
  end.

(** [L.geoJSON(feat).getBounds()]: the box around the positions of the
    geometry, invalid when there is none. *)
Definition getBounds (g : Geometry) : LatLngBounds :=
  fold_left (fun bounds latlng => extend bounds (Some (latlng, latlng))) g None.

(** The [match] flag of [MapZoomController]. *)
Definition zoomMatch (searchSelection : SearchResult) (props : BarangayProperties) : bool :=
  match type searchSelection with
  | municipalityType =>
      String.eqb (BP.m props) (municipality searchSelection) &&
      String.eqb (BP.p props) (province searchSelection)
  | barangayType =>
      strictEqOpt (BP.b props) (barangay searchSelection) &&
      String.eqb (BP.m props) (municipality searchSelection) &&
      String.eqb (BP.p props) (province searchSelection)
  end.

(** One iteration of the loop over [data.features]. *)
Definition zoomStep (searchSelection : SearchResult) (bounds : LatLngBounds)
  (feat : BarangayFeature) : LatLngBounds :=
  match properties feat with
  | None => bounds                                (* if (!props) continue *)
  | Some props =>
      if zoomMatch searchSelection props then
        match geometry feat with
        | Some g => extend bounds (getBounds g)
        | None => bounds
        end
      else bounds
  end.

(** The call [map.fitBounds(bounds, { padding, maxZoom })]. *)
Record FitBounds : Type := {
  fitTo : LatLng * LatLng;
  padding : Z * Z;
  maxZoom : Z
}.

(** The effect of [MapZoomController]: the call it makes, if any. *)
Definition zoomEffect (data : BarangayCollection) (searchSelection : option SearchResult)
  : option FitBounds :=
  match searchSelection with
  | None => None                                  (* if (!searchSelection) return *)
  | Some sel =>
      let bounds := fold_left (zoomStep sel) (features data) None in
      match bounds with
      | Some box => Some {| fitTo := box; padding := (40, 40)%Z; maxZoom := 16%Z |}
      | None => None
      end
  end.

(** A feature adds a valid box to the union of bounds: it has a property
    record matching the selection and a geometry whose box is valid. *)
Definition contributes (searchSelection : SearchResult) (feat : BarangayFeature) : Prop :=
  exists props g,
    properties feat = Some props /\
    zoomMatch searchSelection props = true /\
    geometry feat = Some g /\
    isValid (getBounds g) = true.

End MapView.

(** ** SearchBar.tsx: the state of the search bar and its handlers *)

Module SB.

Local Open Scope string_scope.

(** The three state variables [query], [open] and [selectedIndex]. *)
Record t : Type := mk {
  query : string;
  open : bool;
  selectedIndex : Z
}.

Definition initial : t := {| query := ""; open := false; selectedIndex := 0 |}.

Definition setQuery (text : string) (st : t) : t :=
  {| query := text; open := open st; selectedIndex := selectedIndex st |}.

Definition setOpen (flag : bool) (st : t) : t :=
  {| query := query st; open := flag; selectedIndex := selectedIndex st |}.

Definition setSelectedIndex (i : Z) (st : t) : t :=
  {| query := query st; open := open st; selectedIndex := i |}.

(** What a handler does besides changing the state: its calls of
    [onSelect], in order. *)
Definition Calls : Type := list (option SearchResult).

(** [handleSelect]: [setQuery(result.label); setOpen(false);
    onSelect(result)]. *)
Definition handleSelect (result : SearchResult) (st : t) : t * Calls :=
  (setOpen false (setQuery (label result) st), [Some result]).

(** The input's [onFocus]: [query.trim() && setOpen(true)], where [query]
    is the one of the render the handler was made in. *)
Definition onFocus (rendered : t) (st : t) : t :=
  if Str.truthy (Str.trim (query rendered)) then setOpen true st else st.

(** [handleClear]: [setQuery(""); setOpen(false); onSelect(null);
    inputRef.current?.focus()].  The button took the focus with the click,
    so [focus()] runs [onFocus], still with the [query] of the render at
    hand. *)
Definition handleClear (st : t) : t * Calls :=
  (onFocus st (setOpen false (setQuery "" st)), [None]).

Inductive Key : Type :=
| ArrowDown
| ArrowUp
| Enter
| Escape
| OtherKey.

(** [results[i]]: [undefined] outside the array. *)
Definition at_index {A : Type} (l : list A) (i : Z) : option A :=
  if (i <? 0)%Z then None else nth_error l (Z.to_nat i).

(** [handleKeyDown], given the current [results].  [None] is the
    [TypeError] of [handleSelect(undefined)], which reads
    [result.label]. *)
Definition handleKeyDown (results : list SearchResult) (key : Key) (st : t)
  : option (t * Calls) :=
  if negb (open st) || (length results =? 0)%nat then Some (st, [])
  else
    match key with
    | ArrowDown =>
        Some (setSelectedIndex
                (Z.min (selectedIndex st + 1) (Z.of_nat (length results) - 1)) st,
              [])
    | ArrowUp => Some (setSelectedIndex (Z.max (selectedIndex st - 1) 0) st, [])
    | Enter =>
        match at_index results (selectedIndex st) with
        | Some result => Some (handleSelect result st)
        | None => None
        end
    | Escape => Some (setOpen false st, [])
    | OtherKey => Some (st, [])
    end.

(** What the user can do.  A row of the dropdown exists when the dropdown
    is open and [i] is the position of a result, the clear button when
    [query] is not empty; elsewhere the click or the pointer meets
    nothing. *)
Inductive Event : Type :=
| Change (text : string)
| Focus
| KeyDown (key : Key)
| ClickResult (i : nat)
| MouseEnter (i : nat)
| ClickClear
| ClickOutside.

Definition handle (searchIndex : list SearchResult) (ev : Event) (st : t)
  : option (t * Calls) :=
  let results := results (query st) searchIndex in
  match ev with
  | Change text => Some (setOpen true (setQuery text st), [])
  | Focus => Some (onFocus st st, [])
  | KeyDown key => handleKeyDown results key st
  | ClickResult i =>
      match open st, nth_error results i with
      | true, Some result => Some (handleSelect result st)
      | _, _ => Some (st, [])
      end
  | MouseEnter i =>
      if open st && (i <? length results)%nat
      then Some (setSelectedIndex (Z.of_nat i) st, [])
      else Some (st, [])
  | ClickClear => if Str.truthy (query st) then Some (handleClear st) else Some (st, [])
  | ClickOutside => Some (setOpen false st, [])
  end.

(** The effect [setSelectedIndex(0)] on [results]: the results are computed
    anew when [query] changes. *)
Definition resetOnResults (before after : t) : t :=
  if String.eqb (query before) (query after) then after
  else setSelectedIndex 0 after.

(** One event: its handler, then the effect. *)
Definition step (searchIndex : list SearchResult) (ev : Event) (st : t)
  : option (t * Calls) :=
  match handle searchIndex ev st with
  | Some (st', calls) => Some (resetOnResults st st', calls)
  | None => None
  end.

(** A sequence of events, with the calls of [onSelect] it makes. *)
Fixpoint run (searchIndex : list SearchResult) (evs : list Event) (st : t)
  : option (t * Calls) :=
  match evs with
  | [] => Some (st, [])
  | ev :: evs' =>
      match step searchIndex ev st with
      | Some (st', calls) =>
          match run searchIndex evs' st' with
          | Some (st'', calls') => Some (st'', (calls ++ calls')%list)
          | None => None
          end
      | None => None
      end
  end.

(** [selectedIndex] is the position of a result, when there is one. *)
Definition InRange (searchIndex : list SearchResult) (st : t) : Prop :=
  results (query st) searchIndex = [] \/
  (0 <= selectedIndex st < Z.of_nat (length (results (query st) searchIndex)))%Z.

End SB.

(** ** App.tsx: the statistics of the selected candidate *)

Inductive DatasetType : Type :=
| senate
| partylist.

Module CC.

(** [CandidateConfig] *)
Record t : Type := mk {
  id : string;
  name : string;
  type : DatasetType;
  color : string;
  columns : list string
}.

End CC.

Module Stats.

Local Open Scope R_scope.

(** A value of [provinceMap]. *)
Record Total : Type := mkTotal {
  votes : R;
  actual : R
}.

(** [provinceMap], a [Map] in insertion order. *)
Definition ProvinceMap : Type := list (string * Total).

(** [provinceMap.get(province)] *)
Fixpoint get (province : string) (mp : ProvinceMap) : option Total :=
  match mp with
  | [] => None
  | (k, e) :: mp' => if String.eqb k province then Some e else get province mp'
  end.

(** [existing.votes += votes; existing.actual += av] on the entry of
    [province], which is there. *)
Fixpoint addTo (province : string) (v av : R) (mp : ProvinceMap) : ProvinceMap :=
  match mp with
  | [] => []
  | (k, e) :: mp' =>
      if String.eqb k province
      then (k, {| votes := votes e + v; actual := actual e + av |}) :: mp'
      else (k, e) :: addTo province v av mp'
  end.

(** The body of the loop on [provinceMap]. *)
Definition record (province : string) (v av : R) (mp : ProvinceMap) : ProvinceMap :=
  match get province mp with
  | Some existing => addTo province v av mp
  | None => (mp ++ [(province, {| votes := v; actual := av |})])%list
  end.

(** One iteration of the loop of [stats]. *)
Definition step (cId : string) (st : R * R * ProvinceMap) (feat : BarangayFeature)
  : R * R * ProvinceMap :=
  let '(totalVotes, totalActual, provinceMap) := st in
  match properties feat with
  | None => st                                    (* if (!props) continue *)
  | Some props =>
      let votes := votesOf props cId in
      let av := avOf props in
      (totalVotes + votes, totalActual + av, record (BP.p props) votes av provinceMap)
  end.

(** An element of [topProvinces]. *)
Record Province : Type := mkProvince {
  name : string;
  provinceVotes : R;
  share : R
}.

Record t : Type := mk {
  totalVotes : R;
  avgShare : R;
  topProvinces : list Province
}.

(** [Array.prototype.sort] with a comparator that returns a number: a
    stable sort. *)
Fixpoint insertSorted {A : Type} (cmp : A -> A -> R) (x : A) (l : list A) : list A :=
  match l with
  | [] => [x]
  | y :: l' => if Js.leb (cmp x y) 0 then x :: l else y :: insertSorted cmp x l'
  end.

Fixpoint sort {A : Type} (cmp : A -> A -> R) (l : list A) : list A :=
  match l with
  | [] => []
  | x :: l' => insertSorted cmp x (sort cmp l')
  end.

(** [([name, { votes, actual }]) => ({ name, votes, share })] *)
Definition toProvince (entry : string * Total) : Province :=
  let '(name, total) := entry in
  {| name := name;
     provinceVotes := votes total;
     share := if gtb (actual total) 0 then (votes total / actual total) * 100 else 0 |}.

(** The memo [stats] of [App]. *)
Definition stats (data : BarangayCollection) (selectedCandidate : option CC.t) : t :=
  match features data, selectedCandidate with
  | _ :: _, Some candidate =>
      let '(totalVotes, totalActual, provinceMap) :=
        fold_left (step (CC.id candidate)) (features data) (0, 0, []) in
      let avgShare :=
        if gtb totalActual 0 then (totalVotes / totalActual) * 100 else 0 in
      let topProvinces :=
        firstn 5
          (sort (fun a b => provinceVotes b - provinceVotes a)
             (map toProvince provinceMap)) in
      {| totalVotes := totalVotes; avgShare := avgShare; topProvinces := topProvinces |}
  | _, _ => {| totalVotes := 0; avgShare := 0; topProvinces := [] |}
  end.

(** The votes and the voters the map holds for a province, 0 when it
    holds none. *)
Definition votesIn (province : string) (mp : ProvinceMap) : R :=
  match get province mp with
  | Some e => votes e
  | None => 0
  end.

Definition actualIn (province : string) (mp : ProvinceMap) : R :=
  match get province mp with
  | Some e => actual e
  | None => 0
  end.

(** Two provinces in the order of [topProvinces]: most votes first. *)
Definition moreVotes (a b : Province) : Prop := provinceVotes b <= provinceVotes a.

(** The sum of a quantity over property records. *)
Definition sumOf (f : BarangayProperties -> R) (l : list BarangayProperties) : R :=
  fold_right (fun x acc => f x + acc) 0 l.

(** The property records of a province. *)
Definition ofProvince (province : string) (l : list BarangayProperties)
  : list BarangayProperties :=
  filter (fun x => String.eqb (BP.p x) province) l.

End Stats.

(** ** Vocabulary for stating the search properties *)

Module StrSpec.

Local Open Scope string_scope.

Fixpoint allChars (f : ascii -> bool) (s : string) : bool :=
  match s with
  | EmptyString => true
  | String c s' => f c && allChars f s'
  end.

(** Empty or made of white space only. *)
Definition Blank (s : string) : Prop := allChars Str.isSpace s = true.

(** A token: not empty and free of white space. *)
Definition Word (w : string) : Prop :=
  w <> "" /\ allChars (fun c => negb (Str.isSpace c)) w = true.

(** A separator: a non-empty run of white space. *)
Definition Gap (g : string) : Prop := g <> "" /\ Blank g.

(** [Tokenised q tokens]: [q] is the tokens in order, with a separator
    between neighbours and nothing else. *)
Inductive Tokenised : string -> list string -> Prop :=
| Tokenised_last w : Word w -> Tokenised w [w]
| Tokenised_more w gap rest tokens :
    Word w -> Gap gap -> Tokenised rest tokens ->
    Tokenised (w ++ gap ++ rest) (w :: tokens).

Definition headIsSpace (s : string) : bool :=
  match s with
  | String c _ => Str.isSpace c
  | EmptyString => false
  end.

Fixpoint lastIsSpace (s : string) : bool :=
  match s with
  | EmptyString => false
  | String c EmptyString => Str.isSpace c
  | String _ s' => lastIsSpace s'
  end.

(** [Trimmed s q]: [q] is [s] without the white space at its two ends. *)
Definition Trimmed (s q : string) : Prop :=
  exists pre post,
    s = pre ++ q ++ post /\ Blank pre /\ Blank post /\
    headIsSpace q = false /\ lastIsSpace q = false.

(** [t] occurs in [s]. *)
Definition Substring (t s : string) : Prop :=
  exists pre post, s = pre ++ t ++ post.

Definition Lowercased (s : string) : Prop := Str.toLowerCase s = s.

(** The white space characters: tab, line feed, vertical tab, form feed,
    carriage return, space and no-break space. *)
Definition whiteSpace : list ascii :=
  map ascii_of_nat [9; 10; 11; 12; 13; 32; 160]%nat.

Definition isWhiteSpace (c : ascii) : bool := existsb (Ascii.eqb c) whiteSpace.

(** The capital letters, each with its small letter: [A] to [Z], and the
    capitals U+00C0 to U+00D6 and U+00D8 to U+00DE with the small letters
    U+00E0 to U+00F6 and U+00F8 to U+00FE. *)
Definition letterPairs : list (ascii * ascii) :=
  combine
    (list_ascii_of_string "ABCDEFGHIJKLMNOPQRSTUVWXYZ" ++
     map ascii_of_nat (seq 192 23 ++ seq 216 7))
    (list_ascii_of_string "abcdefghijklmnopqrstuvwxyz" ++
     map ascii_of_nat (seq 224 23 ++ seq 248 7)).

(** The small letter of a capital; any other character is left alone. *)
Definition smallOf (c : ascii) : ascii :=
  match find (fun letters => Ascii.eqb (fst letters) c) letterPairs with
  | Some letters => snd letters
  | None => c
  end.

Fixpoint mapChars (f : ascii -> ascii) (s : string) : string :=
  match s with
  | EmptyString => EmptyString
  | String c s' => String (f c) (mapChars f s')
  end.

(** [LowerCaseOf s t]: [t] is [s] with every capital replaced by its small
    letter. *)
Definition LowerCaseOf (s t : string) : Prop := t = mapChars smallOf s.

(** No capital in [s]. *)
Definition LowerCase (s : string) : Prop := LowerCaseOf s s.

End StrSpec.

(** ** Vocabulary for stating the properties of the search index *)

Module IndexSpec.

(** The property records of the features that have one, in order. *)
Definition propsOfList (feats : list BarangayFeature) : list BarangayProperties :=
  flat_map
    (fun feat =>
       match properties feat with
       | Some props => [props]
       | None => []
       end)
    feats.

Definition propsOf (data : BarangayCollection) : list BarangayProperties :=
  propsOfList (features data).

(** The (province, municipality) key of a property record and of an
    entry. *)
Definition keyOf (props : BarangayProperties) : string :=
  muniKey (BP.p props) (BP.m props).


(** No character of [s] is the separator [|] of the key. *)
Definition noBar (s : string) : bool :=
  StrSpec.allChars (fun c => negb (Ascii.eqb c "|")) s.




(** First seen wins: a record stays, and the later records with its key
    go. *)
Fixpoint firstSeenByKey (l : list BarangayProperties) : list BarangayProperties :=
  match l with
  | [] => []
  | x :: l' =>
      x :: filter (fun y => negb (String.eqb (keyOf y) (keyOf x))) (firstSeenByKey l')
  end.



(** Lexicographic comparison of the characters, as a comparator. *)
Definition lexCompare (a b : string) : Z :=
  match String.compare a b with
  | Lt => (-1)%Z
  | Eq => 0%Z
  | Gt => 1%Z
  end.

End IndexSpec.

(** ** Vocabulary for stating the properties of the colour scale *)

Module ColorSpec.

(** A character of the class [[a-f\d]] under the flag [i]. *)
Definition isHexChar (c : ascii) : bool := isSome (hexDigit c).

(** The colour [hexToRgb] falls back to. *)
Definition fallbackColor : Z * Z * Z := (251, 146, 60)%Z.

Definition headIsHash (s : string) : bool :=
  match s with
  | String c _ => Ascii.eqb c "#"
  | EmptyString => false
  end.

(** The channels of a gradient stop, rounded as the interpolation rounds
    them. *)
Definition stopColor (s : Stop) : CssColor :=
  Rgb (Math_round (stopR s)) (Math_round (stopG s)) (Math_round (stopB s)).

End ColorSpec.

(** ** Vocabulary for stating the properties of the viewport *)

Module MapSpec.

Local Open Scope R_scope.

(** The box holds the position. *)
Definition covers (box : LatLng * LatLng) (latlng : LatLng) : Prop :=
  fst (fst box) <= fst latlng <= fst (snd box) /\
  snd (fst box) <= snd latlng <= snd (snd box).

(** The south-west corner is not north or east of the north-east one. *)
Definition wellFormed (box : LatLng * LatLng) : Prop :=
  fst (fst box) <= fst (snd box) /\ snd (fst box) <= snd (snd box).

(** A feature the selection matches, with a geometry. *)
Definition matchedGeometry (searchSelection : SearchResult) (feat : BarangayFeature)
  (g : Geometry) : Prop :=
  exists props,
    properties feat = Some props /\ zoomMatch searchSelection props = true /\
    geometry feat = Some g.

End MapSpec.

(** ** Sample inputs *)

Module Sample.

Local Open Scope R_scope.
Local Open Scope string_scope.

(** One barangay where candidate [s01] has 1 of 2 votes cast. *)
Definition lahugProps : BarangayProperties :=
  BP.mk "Cebu" "Cebu City" "Lahug" 4 (Some 2) [("v_s01", 1)].

Definition lahug : BarangayFeature :=
  {| properties := Some lahugProps; geometry := None |}.

Definition halfShare : BarangayCollection := {| features := [lahug] |}.

(** The same barangay with a triangle as its geometry. *)
Definition lahugMapped : BarangayFeature :=
  {| properties := Some lahugProps;
     geometry := Some [(10.33, 123.89); (10.34, 123.9); (10.33, 123.91)] |}.

Definition mapped : BarangayCollection := {| features := [lahugMapped] |}.

(** An index with two municipalities named alike. *)
Definition sanJoseIndex : list SearchResult :=
  [ {| label := "san jose, batangas"; type := municipalityType;
       province := "Batangas"; municipality := "San Jose"; barangay := None |};
    {| label := "san jose del monte, bulacan"; type := municipalityType;
       province := "Bulacan"; municipality := "San Jose del Monte"; barangay := None |} ].

(** A municipality with a letter outside ASCII, and a text typed in
    capitals with a no-break space between its words. *)
Definition smallNTilde : ascii := ascii_of_nat 241.

Definition capitalNTilde : ascii := ascii_of_nat 209.

Definition noBreakSpace : ascii := ascii_of_nat 160.

Definition lasPinas : SearchResult :=
  {| label := "las pi" ++ String smallNTilde "as, metro manila";
     type := municipalityType;
     province := "Metro Manila";
     municipality := "Las Pi" ++ String smallNTilde "as";
     barangay := None |}.

Definition pinasIndex : list SearchResult := lasPinas :: sanJoseIndex.

Definition shoutedPinas : string :=
  " PI" ++ String capitalNTilde "AS" ++ String noBreakSpace " Las ".

(** Barangays of two municipalities; the second and third share one. *)
Definition barangay1 : BarangayFeature :=
  {| properties :=
       Some (BP.mk "Metro Manila" "Quezon City" "Barangay 1" 0 None []);
     geometry := None |}.

Definition apolonio : BarangayFeature :=
  {| properties :=
       Some (BP.mk "Metro Manila" "Quezon City" "Apolonio Samson" 0 None []);
     geometry := None |}.

Definition threeBarangays : BarangayCollection :=
  {| features := [lahug; barangay1; apolonio] |}.




(** The three barangays in another order. *)
Definition threeBarangaysReordered : BarangayCollection :=
  {| features := [apolonio; lahug; barangay1] |}.

(** Typing, moving down twice and choosing with the keyboard. *)
Definition typeAndChoose : list SB.Event :=
  [ SB.Change "san jose"; SB.KeyDown SB.ArrowDown; SB.KeyDown SB.ArrowDown;
    SB.KeyDown SB.Enter ].

(** Two more barangays with votes for [s01], and a candidate. *)
Definition guadalupe : BarangayFeature :=
  {| properties := Some (BP.mk "Cebu" "Cebu City" "Guadalupe" 10 (Some 8) [("v_s01", 2)]);
     geometry := None |}.

Definition poblacion : BarangayFeature :=
  {| properties := Some (BP.mk "Bohol" "Tagbilaran" "Poblacion" 9 (Some 5) [("v_s01", 4)]);
     geometry := None |}.

Definition twoProvinces : BarangayCollection :=
  {| features := [lahug; poblacion; guadalupe] |}.

Definition s01 : CC.t := CC.mk "s01" "candidate one" senate "#3b82f6" [].

(** The search entry of the municipality of that barangay. *)
Definition cebuCity : SearchResult :=
  {| label := "cebu city, cebu"; type := municipalityType;
     province := "Cebu"; municipality := "Cebu City"; barangay := None |}.

End Sample.

(** * Properties *)

(** ** Facts about the JavaScript primitives *)

Module JsFacts.

Local Open Scope R_scope.

Lemma gtb_true x y : gtb x y = true <-> y < x.
Proof. unfold gtb; destruct (Rlt_dec y x); split; intros; congruence || lra. Qed.

Lemma gtb_false x y : gtb x y = false <-> x <= y.
Proof. unfold gtb; destruct (Rlt_dec y x); split; intros; congruence || lra. Qed.

Lemma geb_true x y : geb x y = true <-> y <= x.
Proof. unfold geb; destruct (Rle_dec y x); split; intros; congruence || lra. Qed.

Lemma geb_false x y : geb x y = false <-> x < y.
Proof. unfold geb; destruct (Rle_dec y x); split; intros; congruence || lra. Qed.

Lemma leb_true x y : leb x y = true <-> x <= y.
Proof. unfold leb; destruct (Rle_dec x y); split; intros; congruence || lra. Qed.

Lemma leb_false x y : leb x y = false <-> y < x.
Proof. unfold leb; destruct (Rle_dec x y); split; intros; congruence || lra. Qed.

Lemma or_else_nonzero x d : x <> 0 -> or_else x d = x.
Proof. unfold or_else; destruct (Req_dec_T x 0); intros; congruence. Qed.

Lemma or_else_zero d : or_else 0 d = d.
Proof. unfold or_else; destruct (Req_dec_T 0 0); congruence. Qed.

Lemma Math_min_unit x : x <= 1 -> Math_min x 1 = x.
Proof. intros H; unfold Math_min; apply Rmin_left; assumption. Qed.

Lemma Math_sqrt_nonneg x : 0 <= x -> Math_sqrt x = Some (sqrt x).
Proof. intros H; unfold Math_sqrt; destruct (Rle_dec 0 x); [reflexivity | lra]. Qed.

Lemma Math_sqrt_neg x : x < 0 -> Math_sqrt x = None.
Proof. intros H; unfold Math_sqrt; destruct (Rle_dec 0 x); [lra | reflexivity]. Qed.

(** [Math.round] is characterised by the half-open unit interval around
    its result. *)
Lemma Math_round_spec x z : IZR z - / 2 <= x < IZR z + / 2 -> Math_round x = z.
Proof.
  intros H; unfold Math_round; symmetry; apply Int_part_spec; lra.
Qed.

Lemma Math_round_bounds x :
  IZR (Math_round x) - / 2 <= x < IZR (Math_round x) + / 2.
Proof.
  unfold Math_round; destruct (base_Int_part (x + / 2)); lra.
Qed.

Lemma Math_round_IZR z : Math_round (IZR z) = z.
Proof. apply Math_round_spec; lra. Qed.

Lemma Math_round_le x y : x <= y -> (Math_round x <= Math_round y)%Z.
Proof.
  intros Hxy.
  destruct (Math_round_bounds x) as [Hx _], (Math_round_bounds y) as [_ Hy].
  assert (H : IZR (Math_round x) < IZR (Math_round y) + 1) by lra.
  rewrite <- plus_IZR in H; apply lt_IZR in H; lia.
Qed.

End JsFacts.

Import JsFacts.

(** ** Share normalisation *)

Section NormalisationFacts.

Local Open Scope R_scope.

Variable cId : string.

Lemma maxFromZero_nonneg l : 0 <= maxFromZero l.
Proof.
  induction l as [|x l IH]; simpl; [lra|].
  eapply Rle_trans; [exact IH | apply Rmax_r].
Qed.

Lemma maxFromZero_upper l s : In s l -> s <= maxFromZero l.
Proof.
  induction l as [|x l IH]; simpl; [tauto|].
  intros [->|H]; [apply Rmax_l|].
  eapply Rle_trans; [apply IH, H | apply Rmax_r].
Qed.

Lemma maxFromZero_attained l : maxFromZero l = 0 \/ In (maxFromZero l) l.
Proof.
  induction l as [|x l IH]; simpl; [now left|].
  unfold Rmax; destruct (Rle_dec x (maxFromZero l)); [|now right; left].
  destruct IH as [H|H]; [left | right; right]; assumption.
Qed.

Lemma observedShares_cons feat feats :
  observedShares {| features := feat :: feats |} cId =
  observedShares {| features := [feat] |} cId ++
  observedShares {| features := feats |} cId.
Proof.
  unfold observedShares; simpl. rewrite app_nil_r. reflexivity.
Qed.

(** The loop computes the largest observed share. *)
Lemma fold_maxShareStep feats : forall max, 0 <= max ->
  fold_left (maxShareStep cId) feats max =
  Rmax max (maxFromZero (observedShares {| features := feats |} cId)).
Proof.
  induction feats as [|feat feats IH]; intros max Hmax.
  - simpl. unfold observedShares; simpl. rewrite Rmax_left; [reflexivity | assumption].
  - cbn [fold_left]. rewrite observedShares_cons.
    unfold maxShareStep at 2. unfold observedShares at 1. cbn [features flat_map].
    destruct (properties feat) as [props|]; [|cbn [app]; apply IH, Hmax].
    cbv zeta. destruct (gtb (avOf props) 0); [|cbn [app]; apply IH, Hmax].
    cbn [app]. cbn [maxFromZero fold_right].
    fold (maxFromZero (observedShares {| features := feats |} cId)).
    rewrite Rmax_assoc.
    replace (if gtb (votesOf props cId / avOf props) max
             then votesOf props cId / avOf props else max)
      with (Rmax max (votesOf props cId / avOf props)).
    + apply IH. eapply Rle_trans; [exact Hmax | apply Rmax_l].
    + unfold Rmax.
      destruct (gtb (votesOf props cId / avOf props) max) eqn:E;
        [apply gtb_true in E | apply gtb_false in E];
        destruct (Rle_dec max (votesOf props cId / avOf props)); lra.
Qed.

Lemma loop_observedMax data :
  fold_left (maxShareStep cId) (features data) 0 = observedMax data cId.
Proof.
  rewrite fold_maxShareStep by lra.
  destruct data as [feats]; unfold observedMax; cbn [features].
  apply Rmax_right, maxFromZero_nonneg.
Qed.

End NormalisationFacts.

Section MaxShare.

Local Open Scope R_scope.

Lemma observedShares_no_turnout data cId :
  (forall feat props,
      In feat (features data) -> properties feat = Some props -> avOf props = 0) ->
  observedShares data cId = [].
Proof.
  destruct data as [feats]; unfold observedShares; cbn [features].
  induction feats as [|feat feats IH]; intros H; [reflexivity|].
  cbn [flat_map]. rewrite IH by (intros f q Hin; apply H; now right).
  destruct (properties feat) as [props|] eqn:E; [|reflexivity].
  rewrite (H feat props (or_introl eq_refl) E).
  replace (gtb 0 0) with false; [reflexivity|].
  symmetry; apply gtb_false; lra.
Qed.

(** C1, as amended: [computeMaxShare] scans the features once, keeping the
    running maximum of [votes / av] over the features with [av > 0]
    (starting from 0), and returns that observed maximum when it is not 0
    and 1 when it is 0; over a collection where every feature has
    [av = 0] it returns exactly 1. *)
Theorem computeMaxShare_observedMax (data : BarangayCollection) (cId : string) :
  let observed := observedMax data cId in
  (forall s, In s (observedShares data cId) -> s <= observed) /\
  (observed = 0 \/ In observed (observedShares data cId)) /\
  (observed <> 0 -> computeMaxShare data cId = observed) /\
  (observed = 0 -> computeMaxShare data cId = 1) /\
  ((forall feat props,
       In feat (features data) -> properties feat = Some props -> avOf props = 0) ->
   computeMaxShare data cId = 1).
Proof.
  cbv zeta. unfold computeMaxShare. rewrite loop_observedMax.
  repeat split.
  - intros s; apply maxFromZero_upper.
  - apply maxFromZero_attained.
  - apply or_else_nonzero.
  - intros ->; apply or_else_zero.
  - intros H. unfold observedMax. rewrite (observedShares_no_turnout data cId H).
    apply or_else_zero.
Qed.

(** C1 as stated fails: with one feature of share 1/2 the result is 1/2,
    not [max(1/2, 1) = 1]. *)
Lemma computeMaxShare_not_max_with_one :
  computeMaxShare Sample.halfShare "s01" = 1 / 2 /\
  computeMaxShare Sample.halfShare "s01" <>
  Rmax (observedMax Sample.halfShare "s01") 1.
Proof.
  assert (Hobs : observedMax Sample.halfShare "s01" = 1 / 2).
  { unfold observedMax, observedShares, Sample.halfShare; cbn.
    unfold avOf, votesOf; cbn.
    replace (gtb 2 0) with true by (symmetry; apply gtb_true; lra).
    cbn. apply Rmax_left; lra. }
  assert (Hres : computeMaxShare Sample.halfShare "s01" = 1 / 2).
  { unfold computeMaxShare. rewrite loop_observedMax, Hobs.
    apply or_else_nonzero; lra. }
  split; [exact Hres|].
  rewrite Hres, Hobs, Rmax_right; lra.
Qed.

End MaxShare.

(** ** The normalised value stays in the unit interval *)

Section NormalisedRange.

Local Open Scope R_scope.

Lemma share_observed data cId feat props :
  In feat (features data) -> properties feat = Some props ->
  gtb (avOf props) 0 = true ->
  In (votesOf props cId / avOf props) (observedShares data cId).
Proof.
  intros Hin Hprops Hav. unfold observedShares.
  apply in_flat_map. exists feat. split; [assumption|].
  rewrite Hprops, Hav. now left.
Qed.

Lemma shareOf_le_observedMax data cId feat props :
  In feat (features data) -> properties feat = Some props ->
  shareOf props cId <= observedMax data cId.
Proof.
  intros Hin Hprops. unfold shareOf; cbv zeta.
  destruct (gtb (avOf props) 0) eqn:Hav.
  - apply maxFromZero_upper, (share_observed data cId feat props); assumption.
  - apply maxFromZero_nonneg.
Qed.

Lemma shareOf_nonneg cId props : 0 <= votesOf props cId -> 0 <= shareOf props cId.
Proof.
  intros Hv. unfold shareOf; cbv zeta.
  destruct (gtb (avOf props) 0) eqn:Hav; [|lra].
  apply gtb_true in Hav. apply Rle_mult_inv_pos; assumption.
Qed.

Lemma computeMaxShare_floor data cId :
  observedMax data cId = 0 -> computeMaxShare data cId = 1.
Proof.
  intros H0. unfold computeMaxShare. rewrite loop_observedMax, H0. apply or_else_zero.
Qed.

Lemma computeMaxShare_observed data cId :
  observedMax data cId <> 0 -> computeMaxShare data cId = observedMax data cId.
Proof.
  intros H0. unfold computeMaxShare. rewrite loop_observedMax. now apply or_else_nonzero.
Qed.

(** The normalised value of a share between 0 and the observed maximum. *)
Lemma normalizedOf_unit data cId share :
  0 <= share <= observedMax data cId ->
  0 <= normalizedOf (computeMaxShare data cId) share <= 1.
Proof.
  intros Hshare. unfold normalizedOf.
  destruct (gtb (computeMaxShare data cId) 0) eqn:Hpos; [|lra].
  apply gtb_true in Hpos.
  destruct (Req_dec_T (observedMax data cId) 0) as [H0|H0].
  - rewrite (computeMaxShare_floor data cId H0).
    assert (share = 0) as -> by lra. lra.
  - rewrite (computeMaxShare_observed data cId H0) in *. split.
    + apply Rle_mult_inv_pos; lra.
    + replace 1 with (observedMax data cId / observedMax data cId) by (field; lra).
      apply Rmult_le_compat_r; [left; now apply Rinv_0_lt_compat | lra].
Qed.

(** C10: when the votes of the candidate are non-negative and [maxShare]
    is computed from the same collection and candidate, every feature's
    share lies between 0 and the observed maximum, the floor 1 is in use
    only when the share is 0, the normalised value [share / maxShare] lies
    in [0,1], the clamp [Math.min(., 1)] leaves it unchanged and
    [Math.sqrt] receives a non-negative argument (its result is no NaN). *)
Theorem normalized_in_unit_interval (data : BarangayCollection) (cId : string)
  (feat : BarangayFeature) (props : BarangayProperties) :
  (forall feat' props',
      In feat' (features data) -> properties feat' = Some props' ->
      0 <= votesOf props' cId) ->
  In feat (features data) ->
  properties feat = Some props ->
  let maxShare := computeMaxShare data cId in
  let share := shareOf props cId in
  let normalized := normalizedOf maxShare share in
  0 <= share <= observedMax data cId /\
  (observedMax data cId = 0 -> maxShare = 1 /\ share = 0) /\
  (observedMax data cId <> 0 -> maxShare = observedMax data cId) /\
  0 <= normalized <= 1 /\
  Math_min normalized 1 = normalized /\
  0 <= Math_min normalized 1 /\
  Math_sqrt (Math_min normalized 1) = Some (sqrt normalized).
Proof.
  intros Hvotes Hin Hprops; cbv zeta.
  pose proof (shareOf_le_observedMax data cId feat props Hin Hprops) as Hle.
  pose proof (shareOf_nonneg cId props (Hvotes feat props Hin Hprops)) as Hge.
  pose proof (normalizedOf_unit data cId (shareOf props cId) (conj Hge Hle)) as Hnorm.
  assert (Hmin : Math_min (normalizedOf (computeMaxShare data cId) (shareOf props cId)) 1 =
                 normalizedOf (computeMaxShare data cId) (shareOf props cId)).
  { apply Math_min_unit, Hnorm. }
  split; [lra|].
  split; [intros H0; split; [now apply computeMaxShare_floor | lra]|].
  split; [apply computeMaxShare_observed|].
  split; [exact Hnorm|].
  split; [exact Hmin|].
  split; [rewrite Hmin; tauto|].
  rewrite Hmin. apply Math_sqrt_nonneg, Hnorm.
Qed.

Lemma normalized_in_unit_interval_witness :
  let maxShare := computeMaxShare Sample.halfShare "s01" in
  let share := shareOf Sample.lahugProps "s01" in
  let normalized := normalizedOf maxShare share in
  0 <= share <= observedMax Sample.halfShare "s01" /\
  (observedMax Sample.halfShare "s01" = 0 -> maxShare = 1 /\ share = 0) /\
  (observedMax Sample.halfShare "s01" <> 0 ->
   maxShare = observedMax Sample.halfShare "s01") /\
  0 <= normalized <= 1 /\
  Math_min normalized 1 = normalized /\
  0 <= Math_min normalized 1 /\
  Math_sqrt (Math_min normalized 1) = Some (sqrt normalized).
Proof.
  apply (normalized_in_unit_interval Sample.halfShare "s01" Sample.lahug Sample.lahugProps).
  - intros feat' props' [<-|[]] [= <-]. unfold votesOf; cbn. lra.
  - now left.
  - reflexivity.
Defined.

End NormalisedRange.

(** ** The colour scale *)

Section ColorScaleFacts.

Local Open Scope R_scope.

(** Decide the comparisons of constants met when a colour function is
    evaluated. *)
Ltac decide_cmp :=
  repeat match goal with
    | |- context [geb ?x ?y] =>
        first [ rewrite (proj2 (geb_true x y)) by lra
              | rewrite (proj2 (geb_false x y)) by lra ]
    | |- context [leb ?x ?y] =>
        first [ rewrite (proj2 (leb_true x y)) by lra
              | rewrite (proj2 (leb_false x y)) by lra ]
    end.

Lemma hexDigit_range c d : hexDigit c = Some d -> (0 <= d <= 15)%Z.
Proof.
  unfold hexDigit.
  set (n := Z.of_nat (nat_of_ascii c)).
  destruct ((48 <=? n) && (n <=? 57))%Z eqn:E1.
  { apply andb_true_iff in E1; destruct E1 as [H1 H2].
    apply Z.leb_le in H1, H2. intros [= <-]; lia. }
  destruct ((97 <=? n) && (n <=? 102))%Z eqn:E2.
  { apply andb_true_iff in E2; destruct E2 as [H1 H2].
    apply Z.leb_le in H1, H2. intros [= <-]; lia. }
  destruct ((65 <=? n) && (n <=? 70))%Z eqn:E3; [|discriminate].
  apply andb_true_iff in E3; destruct E3 as [H1 H2].
  apply Z.leb_le in H1, H2. intros [= <-]; lia.
Qed.

Lemma parseHexPair_range c1 c2 v : parseHexPair c1 c2 = Some v -> (0 <= v <= 255)%Z.
Proof.
  unfold parseHexPair.
  destruct (hexDigit c1) as [h|] eqn:E1; [|discriminate].
  destruct (hexDigit c2) as [l|] eqn:E2; [|discriminate].
  apply hexDigit_range in E1, E2. intros H.
  assert (Hv : v = (16 * h + l)%Z) by congruence. lia.
Qed.

(** Every channel of a parsed colour is a byte. *)
Lemma hexToRgb_range hex r g b :
  hexToRgb hex = (r, g, b) ->
  (0 <= r <= 255 /\ 0 <= g <= 255 /\ 0 <= b <= 255)%Z.
Proof.
  unfold hexToRgb.
  destruct (stripHash hex) as [|r1 [|r2 [|g1 [|g2 [|b1 [|b2 [|x rest]]]]]]];
    try (intros [= <- <- <-]; lia).
  destruct (parseHexPair r1 r2) as [vr|] eqn:Er; [|intros [= <- <- <-]; lia].
  destruct (parseHexPair g1 g2) as [vg|] eqn:Eg; [|intros [= <- <- <-]; lia].
  destruct (parseHexPair b1 b2) as [vb|] eqn:Eb; [|intros [= <- <- <-]; lia].
  apply parseHexPair_range in Er, Eg, Eb. intros [= <- <- <-]; lia.
Qed.

(** The brightness factor of the single-hue scale. *)
Lemma getFillColor_unit share color r g b :
  hexToRgb color = (r, g, b) -> 0 <= share <= 1 ->
  getFillColor share color =
  Rgb (Math_round (IZR r * (0.08 + sqrt share * 0.92)))
      (Math_round (IZR g * (0.08 + sqrt share * 0.92)))
      (Math_round (IZR b * (0.08 + sqrt share * 0.92))).
Proof.
  intros Hrgb Hshare. unfold getFillColor. rewrite Hrgb.
  rewrite Math_min_unit by lra. rewrite Math_sqrt_nonneg by lra.
  cbv zeta. replace (1 - 0.08) with 0.92 by lra. reflexivity.
Qed.

Lemma getFillColor_zero color r g b :
  hexToRgb color = (r, g, b) ->
  getFillColor 0 color =
  Rgb (Math_round (IZR r * 0.08)) (Math_round (IZR g * 0.08)) (Math_round (IZR b * 0.08)).
Proof.
  intros Hrgb. rewrite (getFillColor_unit 0 color r g b Hrgb) by lra.
  rewrite sqrt_0. replace (0.08 + 0 * 0.92) with 0.08 by lra. reflexivity.
Qed.

Lemma getFillColor_one color r g b :
  hexToRgb color = (r, g, b) -> getFillColor 1 color = Rgb r g b.
Proof.
  intros Hrgb. rewrite (getFillColor_unit 1 color r g b Hrgb) by lra.
  rewrite sqrt_1. replace (0.08 + 1 * 0.92) with 1 by lra.
  rewrite !Rmult_1_r, !Math_round_IZR. reflexivity.
Qed.

(** A channel of the single-hue scale does not decrease with the share. *)
Lemma channel_monotone c v1 v2 :
  (0 <= c)%Z -> 0 <= v1 -> v1 <= v2 ->
  (Math_round (IZR c * (0.08 + sqrt v1 * 0.92)) <=
   Math_round (IZR c * (0.08 + sqrt v2 * 0.92)))%Z.
Proof.
  intros Hc H1 H12. apply Math_round_le.
  assert (Hs : sqrt v1 <= sqrt v2) by (apply sqrt_le_1_alt; assumption).
  apply IZR_le in Hc. apply Rmult_le_compat_l; [assumption | lra].
Qed.

Lemma getFillColor_brightness_monotone color v1 v2 :
  0 <= v1 -> v1 <= v2 -> v2 <= 1 ->
  brightness (getFillColor v1 color) <= brightness (getFillColor v2 color).
Proof.
  intros H1 H12 H2.
  destruct (hexToRgb color) as [[r g] b] eqn:Hrgb.
  destruct (hexToRgb_range color r g b Hrgb) as (Hr & Hg & Hb).
  rewrite (getFillColor_unit v1 color r g b Hrgb) by lra.
  rewrite (getFillColor_unit v2 color r g b Hrgb) by lra.
  unfold brightness.
  pose proof (channel_monotone r v1 v2 (proj1 Hr) H1 H12) as Mr.
  pose proof (channel_monotone g v1 v2 (proj1 Hg) H1 H12) as Mg.
  pose proof (channel_monotone b v1 v2 (proj1 Hb) H1 H12) as Mb.
  apply IZR_le in Mr, Mg, Mb. lra.
Qed.

(** The multi-hue scale at chosen points. *)
Lemma getMultiHueFillColor_zero : getMultiHueFillColor 0 = Rgb 10 10 30.
Proof.
  unfold getMultiHueFillColor.
  rewrite Math_min_unit by lra. rewrite Math_sqrt_nonneg by lra. rewrite sqrt_0.
  unfold MULTI_HUE_STOPS, findStops, stopPos. decide_cmp.
  cbn [andb nullish stopR stopG stopB]. rewrite or_else_nonzero by lra.
  f_equal; apply Math_round_spec; lra.
Qed.

Lemma getMultiHueFillColor_one : getMultiHueFillColor 1 = Rgb 255 240 220.
Proof.
  unfold getMultiHueFillColor.
  rewrite Math_min_unit by lra. rewrite Math_sqrt_nonneg by lra. rewrite sqrt_1.
  unfold MULTI_HUE_STOPS, findStops, stopPos. decide_cmp.
  cbn [andb nullish stopR stopG stopB]. rewrite or_else_nonzero by lra.
  f_equal; apply Math_round_spec; lra.
Qed.

Lemma sqrt_of_square x y : 0 <= y -> x = y * y -> sqrt x = y.
Proof. intros Hy ->. apply sqrt_square, Hy. Qed.

Lemma getMultiHueFillColor_amber : getMultiHueFillColor 0.5625 = Rgb 240 180 30.
Proof.
  unfold getMultiHueFillColor.
  rewrite Math_min_unit by lra. rewrite Math_sqrt_nonneg by lra.
  rewrite (sqrt_of_square 0.5625 0.75) by lra.
  unfold MULTI_HUE_STOPS, findStops, stopPos. decide_cmp.
  cbn [andb nullish stopR stopG stopB]. rewrite or_else_nonzero by lra.
  f_equal; apply Math_round_spec; lra.
Qed.

Lemma getMultiHueFillColor_orange_red : getMultiHueFillColor 0.81 = Rgb 250 100 40.
Proof.
  unfold getMultiHueFillColor.
  rewrite Math_min_unit by lra. rewrite Math_sqrt_nonneg by lra.
  rewrite (sqrt_of_square 0.81 0.9) by lra.
  unfold MULTI_HUE_STOPS, findStops, stopPos. decide_cmp.
  cbn [andb nullish stopR stopG stopB]. rewrite or_else_nonzero by lra.
  f_equal; apply Math_round_spec; lra.
Qed.

End ColorScaleFacts.

Section ColorScaleClaims.

Local Open Scope R_scope.

(** C5: for a normalised value in [0,1] and a base colour with channels
    [(r, g, b)], each channel of the single-hue fill colour is
    [round(channel * (0.08 + sqrt(clamp(v, 0, 1)) * 0.92))]; at [v = 0] the
    factor is exactly 0.08 and at [v = 1] the colour is the base colour. *)
Theorem getFillColor_channels (normalizedValue : R) (color : string) (r g b : Z) :
  hexToRgb color = (r, g, b) ->
  0 <= normalizedValue <= 1 ->
  let clamped := Rmax 0 (Rmin normalizedValue 1) in
  let factor := 0.08 + sqrt clamped * 0.92 in
  getFillColor normalizedValue color =
  Rgb (Math_round (IZR r * factor))
      (Math_round (IZR g * factor))
      (Math_round (IZR b * factor)) /\
  (normalizedValue = 0 -> factor = 0.08) /\
  (normalizedValue = 1 -> getFillColor normalizedValue color = Rgb r g b).
Proof.
  intros Hrgb Hv; cbv zeta.
  rewrite Rmin_left by lra. rewrite Rmax_right by lra.
  split; [apply getFillColor_unit; assumption|].
  split.
  - intros ->. rewrite sqrt_0. lra.
  - intros ->. apply getFillColor_one, Hrgb.
Qed.

Lemma getFillColor_channels_witness :
  let factor := 0.08 + sqrt (Rmax 0 (Rmin 1 1)) * 0.92 in
  getFillColor 1 "#3b82f6" =
  Rgb (Math_round (IZR 59 * factor))
      (Math_round (IZR 130 * factor))
      (Math_round (IZR 246 * factor)) /\
  (1 = 0 -> factor = 0.08) /\
  (1 = 1 -> getFillColor 1 "#3b82f6" = Rgb 59 130 246).
Proof.
  apply (getFillColor_channels 1 "#3b82f6" 59 130 246).
  - reflexivity.
  - lra.
Defined.

(** C2, as amended: in single-hue mode, for every base colour, the
    brightness [0.299 R + 0.587 G + 0.114 B] of the fill colour does not
    decrease as [v] grows within [0,1], the colour at [v = 0] is the base
    colour scaled to 8% and the colour at [v = 1] is the base colour; in
    multi-hue mode the colour at [v = 0] is the first stop [(10, 10, 30)]
    and the colour at [v = 1] is the last stop [(255, 240, 220)]. *)
Theorem colour_scale_brightness (color : string) (v1 v2 : R) :
  0 <= v1 -> v1 <= v2 -> v2 <= 1 ->
  brightness (getFillColor v1 color) <= brightness (getFillColor v2 color) /\
  (let '(r, g, b) := hexToRgb color in
   getFillColor 0 color =
   Rgb (Math_round (IZR r * 0.08)) (Math_round (IZR g * 0.08)) (Math_round (IZR b * 0.08)) /\
   getFillColor 1 color = Rgb r g b) /\
  getMultiHueFillColor 0 = Rgb 10 10 30 /\
  getMultiHueFillColor 1 = Rgb 255 240 220.
Proof.
  intros H1 H12 H2.
  split; [apply getFillColor_brightness_monotone; assumption|].
  split.
  - destruct (hexToRgb color) as [[r g] b] eqn:Hrgb.
    split; [apply getFillColor_zero | apply getFillColor_one]; assumption.
  - split; [apply getMultiHueFillColor_zero | apply getMultiHueFillColor_one].
Qed.

Lemma colour_scale_brightness_witness :
  brightness (getFillColor 0.25 "#3b82f6") <= brightness (getFillColor 1 "#3b82f6") /\
  (let '(r, g, b) := hexToRgb "#3b82f6" in
   getFillColor 0 "#3b82f6" =
   Rgb (Math_round (IZR r * 0.08)) (Math_round (IZR g * 0.08)) (Math_round (IZR b * 0.08)) /\
   getFillColor 1 "#3b82f6" = Rgb r g b) /\
  getMultiHueFillColor 0 = Rgb 10 10 30 /\
  getMultiHueFillColor 1 = Rgb 255 240 220.
Proof.
  apply (colour_scale_brightness "#3b82f6" 0.25 1); lra.
Defined.

(** C2 as stated fails in multi-hue mode: between the amber stop
    ([t = 0.75], [v = 0.5625]) and the orange-red stop ([t = 0.9],
    [v = 0.81]) the brightness falls from 180.84 to 138.01. *)
Lemma multi_hue_brightness_decreases :
  0 <= 0.5625 /\ 0.5625 <= 0.81 /\ 0.81 <= 1 /\
  getMultiHueFillColor 0.5625 = Rgb 240 180 30 /\
  getMultiHueFillColor 0.81 = Rgb 250 100 40 /\
  ~ brightness (getMultiHueFillColor 0.5625) <= brightness (getMultiHueFillColor 0.81).
Proof.
  rewrite getMultiHueFillColor_amber, getMultiHueFillColor_orange_red.
  unfold brightness. repeat split; try lra.
Qed.

End ColorScaleClaims.

(** ** The per-feature style *)

Section StyleClaims.

Local Open Scope R_scope.

Lemma strictEqOpt_true s o : strictEqOpt s o = true <-> Some s = o.
Proof.
  destruct o as [s'|]; simpl.
  - rewrite String.eqb_eq. split; [intros -> | intros [= ->]]; reflexivity.
  - split; discriminate.
Qed.

Lemma normalizedOf_votes props cId maxShare v av :
  BP.get ("v_" ++ cId)%string (BP.dyn props) = Some v ->
  BP.av props = Some av -> 0 < av -> 0 < maxShare ->
  normalizedOf maxShare (shareOf props cId) = v / av / maxShare.
Proof.
  intros Hv Hav Hpos Hmax. unfold normalizedOf, shareOf, votesOf, avOf, voteKey.
  rewrite Hv, Hav. cbn [nullish].
  rewrite (proj2 (gtb_true av 0) Hpos), (proj2 (gtb_true maxShare 0) Hmax).
  reflexivity.
Qed.

Lemma normalizedOf_no_votes props cId maxShare :
  BP.get ("v_" ++ cId)%string (BP.dyn props) = None ->
  normalizedOf maxShare (shareOf props cId) = 0.
Proof.
  intros Hv. unfold normalizedOf, shareOf, votesOf, voteKey. rewrite Hv. cbn [nullish].
  destruct (gtb maxShare 0); [|reflexivity].
  destruct (gtb (avOf props) 0); unfold Rdiv; rewrite ?Rmult_0_l; reflexivity.
Qed.

Lemma normalizedOf_no_turnout props cId maxShare :
  (forall av, BP.av props = Some av -> av <= 0) ->
  normalizedOf maxShare (shareOf props cId) = 0.
Proof.
  intros Hav. unfold normalizedOf, shareOf.
  assert (Hle : avOf props <= 0).
  { unfold avOf. destruct (BP.av props) as [av|]; cbn [nullish]; [now apply Hav | lra]. }
  rewrite (proj2 (gtb_false (avOf props) 0) Hle).
  destruct (gtb maxShare 0); unfold Rdiv; rewrite ?Rmult_0_l; reflexivity.
Qed.

Lemma normalizedOf_no_max maxShare share : maxShare <= 0 -> normalizedOf maxShare share = 0.
Proof.
  intros Hle. unfold normalizedOf. now rewrite (proj2 (gtb_false maxShare 0) Hle).
Qed.

(** C6: the three branches of the style policy.  Without a selection the
    fill colour is the colour scale at the normalised share, with opacity
    0.85 and a thin (0.3) border of colour [#222].  The normalised share is
    computed from the record: with [v] votes under the key [v_] followed
    by the candidate's id, [av] > 0 voters and a positive [maxShare] it is
    [v / av / maxShare]; it is 0 when the record has no votes for the
    candidate, when [av] is absent or not positive, and when [maxShare] is
    not positive.  With a selection that the feature matches the fill
    opacity (0.9) and the border weight (1.5) are strictly larger and the
    border is white; with a selection that the feature does not match the
    fill opacity (0.15) is strictly smaller and the border is the thin one;
    in every branch the fill colour is the one of the case without a
    selection. *)
Theorem getStyle_policy (candidateId color' : string) (highContrast : bool)
  (maxShare : R) (sel : SearchResult) (feat : BarangayFeature)
  (props : BarangayProperties) :
  properties feat = Some props ->
  let refs selection :=
    {| candidateIdRef := candidateId; colorRef := color'; searchRef := selection;
       highContrastRef := highContrast; maxShareRef := maxShare |} in
  let plain := getStyle (refs None) (Some feat) in
  let chosen := getStyle (refs (Some sel)) (Some feat) in
  let normalized := normalizedOf maxShare (shareOf props candidateId) in
  let scale x :=
    if highContrast then getMultiHueFillColor x else getFillColor x color' in
  let votes := BP.get ("v_" ++ candidateId)%string (BP.dyn props) in
  fillColor plain =
    (if highContrast then getMultiHueFillColor normalized
     else getFillColor normalized color') /\
  (forall v av, votes = Some v -> BP.av props = Some av -> 0 < av -> 0 < maxShare ->
     fillColor plain = scale (v / av / maxShare)) /\
  (votes = None -> fillColor plain = scale 0) /\
  ((forall av, BP.av props = Some av -> av <= 0) -> fillColor plain = scale 0) /\
  (maxShare <= 0 -> fillColor plain = scale 0) /\
  fillOpacity plain = 0.85 /\ weight plain = 0.3 /\
  color plain = Css "#222" /\ opacity plain = 0.4 /\
  fillColor chosen = fillColor plain /\
  (isMatch (Some sel) props = true ->
   fillOpacity plain < fillOpacity chosen /\ weight plain < weight chosen /\
   color chosen = Css "#fff") /\
  (isMatch (Some sel) props = false ->
   fillOpacity chosen < fillOpacity plain /\ weight chosen = weight plain /\
   color chosen = color plain).
Proof.
  intros Hprops; cbv zeta. unfold getStyle.
  destruct feat as [fprops fgeom]; cbn [properties] in Hprops; subst fprops.
  cbn [candidateIdRef colorRef searchRef highContrastRef maxShareRef
       fillColor fillOpacity weight color opacity isSome andb].
  split; [reflexivity|].
  split.
  { intros v av Hv Hav Hpos Hmax.
    now rewrite (normalizedOf_votes props candidateId maxShare v av Hv Hav Hpos Hmax). }
  split.
  { intros Hv. now rewrite (normalizedOf_no_votes props candidateId maxShare Hv). }
  split.
  { intros Hav. now rewrite (normalizedOf_no_turnout props candidateId maxShare Hav). }
  split.
  { intros Hmax. now rewrite (normalizedOf_no_max maxShare _ Hmax). }
  do 5 (split; [reflexivity|]).
  split; intros ->; cbn [andb]; repeat split; lra || reflexivity.
Qed.

(** In Lahug candidate [s01] has 1 of the 2 votes cast; with a largest
    share of 1/2 its colour is the scale at [1 / 2 / (1 / 2)], whatever
    the selection. *)
Lemma getStyle_policy_witness :
  let refs selection :=
    {| candidateIdRef := "s01"; colorRef := "#3b82f6"; searchRef := selection;
       highContrastRef := false; maxShareRef := 1 / 2 |} in
  let plain := getStyle (refs None) (Some Sample.lahug) in
  let chosen := getStyle (refs (Some Sample.cebuCity)) (Some Sample.lahug) in
  fillColor plain = getFillColor (1 / 2 / (1 / 2)) "#3b82f6" /\
  fillOpacity plain = 0.85 /\ weight plain = 0.3 /\
  color plain = Css "#222" /\ opacity plain = 0.4 /\
  fillColor chosen = getFillColor (1 / 2 / (1 / 2)) "#3b82f6" /\
  fillOpacity plain < fillOpacity chosen /\ weight plain < weight chosen /\
  color chosen = Css "#fff".
Proof.
  destruct (getStyle_policy "s01" "#3b82f6" false (1 / 2) Sample.cebuCity
              Sample.lahug Sample.lahugProps eq_refl)
    as (_ & Hvotes & _ & _ & _ & Hop & Hw & Hc & Ho & Hsame & Hmatch & _).
  pose proof (Hvotes 1 2 eq_refl eq_refl ltac:(lra) ltac:(lra)) as Hfill.
  destruct (Hmatch eq_refl) as (H1 & H2 & H3).
  split; [exact Hfill|].
  split; [exact Hop|]. split; [exact Hw|]. split; [exact Hc|]. split; [exact Ho|].
  split; [exact (eq_trans Hsame Hfill)|].
  split; [exact H1|]. split; [exact H2 | exact H3].
Defined.

End StyleClaims.

(** ** The match predicate of the style and of the viewport *)

Section MatchClaims.

(** C7: for every feature and selection the [match] flag of the viewport
    controller equals the [isMatch] flag of the style; a municipality
    selection matches iff province and municipality are those of the
    selection, a barangay selection iff the barangay is too. *)
Theorem match_predicates_agree (sel : SearchResult) (props : BarangayProperties) :
  zoomMatch sel props = isMatch (Some sel) props /\
  (type sel = municipalityType ->
   (zoomMatch sel props = true <->
    BP.p props = province sel /\ BP.m props = municipality sel)) /\
  (type sel = barangayType ->
   (zoomMatch sel props = true <->
    BP.p props = province sel /\ BP.m props = municipality sel /\
    Some (BP.b props) = barangay sel)).
Proof.
  split; [reflexivity|].
  unfold zoomMatch. split; intros ->.
  - rewrite andb_true_iff, !String.eqb_eq. tauto.
  - rewrite !andb_true_iff, !String.eqb_eq, strictEqOpt_true. tauto.
Qed.

End MatchClaims.

(** ** Absent data *)

Section AbsentData.

Local Open Scope R_scope.

Variable toFixed1 : R -> string.

Lemma shareOf_no_turnout props cId : avOf props = 0 -> shareOf props cId = 0.
Proof.
  intros H. unfold shareOf; cbv zeta. rewrite H.
  rewrite (proj2 (gtb_false 0 0)) by lra. reflexivity.
Qed.

(** C9: the votes read for a candidate are 0 when the feature has no
    property for the candidate; the share is 0 when [av] is 0 (or absent),
    in the style and in the tooltip alike, and such a feature adds nothing
    to the scan of [computeMaxShare]. *)
Theorem absent_data_defaults (props : BarangayProperties) (cId : string) :
  (BP.get (voteKey cId) (BP.dyn props) = None -> votesOf props cId = 0) /\
  (BP.av props = None -> avOf props = 0) /\
  (avOf props = 0 ->
   shareOf props cId = 0 /\
   tooltipShare toFixed1 props cId = "0.0"%string /\
   forall max geom,
     maxShareStep cId max {| properties := Some props; geometry := geom |} = max).
Proof.
  split; [|split].
  - intros H. unfold votesOf. rewrite H. reflexivity.
  - intros H. unfold avOf. rewrite H. reflexivity.
  - intros H. split; [apply shareOf_no_turnout, H|].
    unfold tooltipShare, maxShareStep; cbv zeta; cbn [properties].
    rewrite H, (proj2 (gtb_false 0 0)) by lra.
    split; [reflexivity | intros; reflexivity].
Qed.

End AbsentData.

(** ** The viewport *)

Section ViewportClaims.

Local Open Scope R_scope.

Lemma isValid_extend bounds other :
  isValid (extend bounds other) = isValid bounds || isValid other.
Proof.
  destruct other as [[sw2 ne2]|], bounds as [[sw ne]|]; reflexivity.
Qed.

Lemma zoomStep_valid sel bounds feat :
  isValid (zoomStep sel bounds feat) = true <->
  isValid bounds = true \/ contributes sel feat.
Proof.
  unfold zoomStep, contributes.
  destruct (properties feat) as [props|] eqn:Hprops.
  2:{ split; [now left | intros [H|(q & g & H & _)]; [assumption | discriminate]]. }
  destruct (zoomMatch sel props) eqn:Hmatch.
  2:{ split; [now left | intros [H|(q & g & [= <-] & H & _)]; [assumption | congruence]]. }
  destruct (geometry feat) as [g|] eqn:Hgeom.
  2:{ split; [now left | intros [H|(q & g & _ & _ & H & _)]; [assumption | discriminate]]. }
  rewrite isValid_extend, orb_true_iff. split.
  - intros [H|H]; [now left | right; exists props, g; auto].
  - intros [H|(q & g' & _ & _ & [= <-] & H)]; [now left | now right].
Qed.

Lemma zoomLoop_valid sel feats : forall bounds,
  isValid (fold_left (zoomStep sel) feats bounds) = true <->
  isValid bounds = true \/ exists feat, In feat feats /\ contributes sel feat.
Proof.
  induction feats as [|feat feats IH]; intros bounds; cbn [fold_left].
  - split; [now left | intros [H|(f & [] & _)]; assumption].
  - rewrite IH, zoomStep_valid. split.
    + intros [[H|H]|(f & Hin & H)]; [now left | right; exists feat | right; exists f];
        (split; [cbn; tauto | assumption]).
    + intros [H|(f & [<-|Hin] & H)]; [tauto | tauto | right; exists f; tauto].
Qed.

Lemma contributes_matches sel feat :
  contributes sel feat ->
  exists props, properties feat = Some props /\ zoomMatch sel props = true.
Proof. intros (props & g & H1 & H2 & _); exists props; tauto. Qed.

(** C8: a selection leads to the call [fitBounds] (with padding [40, 40]
    and [maxZoom] 16) exactly when some feature matching it adds a valid
    box to the union of bounds; when no feature matches, and when there is
    no selection, no call is made. *)
Theorem zoomEffect_fits_iff (data : BarangayCollection) (sel : SearchResult) :
  ((exists fit, zoomEffect data (Some sel) = Some fit) <->
   (exists feat, In feat (features data) /\ contributes sel feat)) /\
  (forall fit, zoomEffect data (Some sel) = Some fit ->
               padding fit = (40, 40)%Z /\ maxZoom fit = 16%Z) /\
  ((forall feat props,
       In feat (features data) -> properties feat = Some props ->
       zoomMatch sel props = false) ->
   zoomEffect data (Some sel) = None) /\
  zoomEffect data None = None.
Proof.
  assert (Hiff : (exists fit, zoomEffect data (Some sel) = Some fit) <->
                 (exists feat, In feat (features data) /\ contributes sel feat)).
  { unfold zoomEffect.
    pose proof (zoomLoop_valid sel (features data) None) as H.
    destruct (fold_left (zoomStep sel) (features data) None) as [box|]; cbn in H.
    - split; [intros _ | intros _; eexists; reflexivity].
      destruct (proj1 H eq_refl) as [H'|H']; [discriminate | exact H'].
    - split; [intros [fit [=]] | intros H'].
      assert (false = true) by (apply H; now right). discriminate. }
  split; [exact Hiff|]. split; [|split; [|reflexivity]].
  - unfold zoomEffect. intros fit.
    destruct (fold_left (zoomStep sel) (features data) None); [|discriminate].
    intros [= <-]; split; reflexivity.
  - intros Hno.
    destruct (zoomEffect data (Some sel)) as [fit|] eqn:E; [|reflexivity].
    destruct (proj1 Hiff (ex_intro _ fit eq_refl)) as (feat & Hin & Hc).
    destruct (contributes_matches sel feat Hc) as (props & Hp & Hm).
    rewrite (Hno feat props Hin Hp) in Hm. discriminate.
Qed.

(** A selection of the municipality of a mapped barangay fits the view to
    the box of its geometry. *)
Example zoomEffect_mapped :
  exists box,
    zoomEffect Sample.mapped (Some Sample.cebuCity) =
    Some {| fitTo := box; padding := (40, 40)%Z; maxZoom := 16%Z |} /\
  zoomEffect Sample.halfShare (Some Sample.cebuCity) = None.
Proof. eexists. split; reflexivity. Qed.

End ViewportClaims.

(** ** Strings *)

Module StrFacts.

Import Str StrSpec.

Local Open Scope string_scope.

Lemma isSpace_lowerChar c : isSpace (lowerChar c) = isSpace c.
Proof. destruct c as [[] [] [] [] [] [] [] []]; reflexivity. Qed.

Lemma lowerChar_idem c : lowerChar (lowerChar c) = lowerChar c.
Proof. destruct c as [[] [] [] [] [] [] [] []]; reflexivity. Qed.

Lemma toLowerCase_idem s : toLowerCase (toLowerCase s) = toLowerCase s.
Proof.
  induction s as [|c s IH]; simpl; [reflexivity|].
  rewrite lowerChar_idem, IH. reflexivity.
Qed.

Lemma Blank_toLowerCase s : Blank (toLowerCase s) <-> Blank s.
Proof.
  unfold Blank. induction s as [|c s IH]; simpl; [tauto|].
  rewrite isSpace_lowerChar, !andb_true_iff, IH. tauto.
Qed.

(** *** [trim] *)

Lemma trimStart_shape s :
  exists pre, s = pre ++ trimStart s /\ Blank pre /\ headIsSpace (trimStart s) = false.
Proof.
  induction s as [|c s (pre & Hs & Hpre & Hhead)]; simpl.
  - exists ""; repeat split.
  - destruct (isSpace c) eqn:Hc.
    + exists (String c pre). simpl. rewrite <- Hs.
      repeat split; [|assumption]. unfold Blank; simpl. rewrite Hc. exact Hpre.
    + exists "". simpl. repeat split. exact Hc.
Qed.

Lemma trimEnd_shape s :
  exists post, s = trimEnd s ++ post /\ Blank post /\ lastIsSpace (trimEnd s) = false.
Proof.
  induction s as [|c s (post & Hs & Hpost & Hlast)]; simpl.
  - exists ""; repeat split.
  - destruct (trimEnd s) as [|c' t] eqn:Ht.
    + simpl in Hs. subst post. destruct (isSpace c) eqn:Hc.
      * exists (String c s). simpl. repeat split.
        unfold Blank; simpl. rewrite Hc. exact Hpost.
      * exists s. simpl. repeat split; assumption.
    + exists post. simpl. simpl in Hs. rewrite <- Hs. repeat split; assumption.
Qed.

Lemma trimEnd_head s : headIsSpace s = false -> headIsSpace (trimEnd s) = false.
Proof.
  destruct s as [|c s]; simpl; [reflexivity|].
  intros Hc. destruct (trimEnd s); [rewrite Hc|]; simpl; auto.
Qed.

Lemma trim_Trimmed s : Trimmed s (trim s).
Proof.
  unfold Trimmed, trim.
  destruct (trimStart_shape s) as (pre & Hs & Hpre & Hhead).
  destruct (trimEnd_shape (trimStart s)) as (post & Ht & Hpost & Hlast).
  exists pre, post. rewrite <- Ht, <- Hs.
  repeat split; try assumption. apply trimEnd_head, Hhead.
Qed.

Lemma Blank_app s1 s2 : Blank (s1 ++ s2) <-> Blank s1 /\ Blank s2.
Proof.
  unfold Blank. induction s1 as [|c s1 IH]; simpl; [tauto|].
  rewrite !andb_true_iff, IH. tauto.
Qed.

(** [trim] gives the empty string exactly on blank strings. *)
Lemma trim_empty_iff s : trim s = "" <-> Blank s.
Proof.
  destruct (trim_Trimmed s) as (pre & post & Hs & Hpre & Hpost & Hhead & Hlast).
  split.
  - intros H. rewrite H in Hs. rewrite Hs. apply Blank_app; tauto.
  - intros H. rewrite Hs in H. apply Blank_app in H. destruct H as [_ H].
    apply Blank_app in H. destruct H as [H _].
    destruct (trim s) as [|c t]; [reflexivity|].
    unfold Blank in H; simpl in H, Hhead. rewrite Hhead in H. discriminate.
Qed.

(** *** [split(/\s+/)] *)

Lemma splitWs_space_space c c' s :
  isSpace c = true -> isSpace c' = true ->
  splitWs (String c (String c' s)) = splitWs (String c' s).
Proof. intros H H'. cbn [splitWs]. rewrite H, H'. reflexivity. Qed.

Lemma splitWs_space_word c c' s :
  isSpace c = true -> isSpace c' = false ->
  splitWs (String c (String c' s)) = "" :: splitWs (String c' s).
Proof. intros H H'. cbn [splitWs]. rewrite H, H'. reflexivity. Qed.

Lemma splitWs_word c s :
  isSpace c = false ->
  splitWs (String c s) =
  match splitWs s with
  | tok :: rest => String c tok :: rest
  | [] => [String c ""]
  end.
Proof. intros H. cbn [splitWs]. rewrite H. reflexivity. Qed.

Lemma Word_cons c w :
  isSpace c = false -> w = "" \/ Word w -> Word (String c w).
Proof.
  intros Hc Hw. split; [discriminate|]. simpl. rewrite Hc. simpl.
  destruct Hw as [->|[_ H]]; [reflexivity | exact H].
Qed.

Lemma Gap_cons c g :
  isSpace c = true -> g = "" \/ Gap g -> Gap (String c g).
Proof.
  intros Hc Hg. split; [discriminate|]. unfold Blank. simpl. rewrite Hc. simpl.
  destruct Hg as [->|[_ H]]; [reflexivity | exact H].
Qed.

Lemma Tokenised_cons c s tokens :
  isSpace c = false -> Tokenised s tokens ->
  exists w tokens', tokens = w :: tokens' /\ Tokenised (String c s) (String c w :: tokens').
Proof.
  intros Hc H. destruct H as [w Hw | w gap rest tokens Hw Hgap Hrest].
  - exists w, []. split; [reflexivity|]. apply Tokenised_last, Word_cons; auto.
  - exists w, tokens. split; [reflexivity|].
    change (String c (w ++ gap ++ rest)) with (String c w ++ gap ++ rest).
    apply Tokenised_more; auto. apply Word_cons; auto.
Qed.

(** The pieces of a string that does not end in white space: after a
    leading separator, if any, they are its tokens. *)
Lemma splitWs_shape s :
  s <> "" -> lastIsSpace s = false ->
  if headIsSpace s then
    exists gap rest tokens,
      Gap gap /\ s = gap ++ rest /\ splitWs s = "" :: tokens /\ Tokenised rest tokens
  else Tokenised s (splitWs s).
Proof.
  induction s as [|c s IH]; [congruence|]. intros _ Hlast.
  destruct s as [|c' s'].
  - simpl in Hlast. simpl. rewrite Hlast.
    apply Tokenised_last, Word_cons; auto.
  - assert (Hlast' : lastIsSpace (String c' s') = false) by exact Hlast.
    specialize (IH ltac:(discriminate) Hlast').
    cbn [headIsSpace] in IH |- *.
    destruct (isSpace c) eqn:Hc, (isSpace c') eqn:Hc'.
    + destruct IH as (gap & rest & tokens & Hgap & Hs & Hsplit & Htok).
      exists (String c gap), rest, tokens.
      rewrite splitWs_space_space by assumption.
      split; [apply Gap_cons; auto|].
      split; [simpl; rewrite <- Hs; reflexivity|].
      split; assumption.
    + exists (String c ""), (String c' s'), (splitWs (String c' s')).
      rewrite splitWs_space_word by assumption.
      split; [apply Gap_cons; auto|].
      split; [reflexivity|]. split; [reflexivity | assumption].
    + destruct IH as (gap & rest & tokens & Hgap & Hs & Hsplit & Htok).
      rewrite splitWs_word, Hsplit by assumption. rewrite Hs.
      change (String c (gap ++ rest)) with (String c "" ++ gap ++ rest).
      apply Tokenised_more; auto. apply Word_cons; auto.
    + destruct (Tokenised_cons c _ _ Hc IH) as (w & tokens' & Hsplit & Htok).
      rewrite splitWs_word, Hsplit by assumption. exact Htok.
Qed.

(** A trimmed, non-empty string is split into its tokens. *)
Lemma splitWs_Tokenised q :
  q <> "" -> headIsSpace q = false -> lastIsSpace q = false ->
  Tokenised q (splitWs q).
Proof.
  intros Hq Hhead Hlast. pose proof (splitWs_shape q Hq Hlast) as H.
  rewrite Hhead in H. exact H.
Qed.

(** *** [includes] *)

Lemma startsWith_iff s t : startsWith s t = true <-> exists post, s = t ++ post.
Proof.
  revert s. induction t as [|ct t IH]; intros s; simpl.
  - split; [intros _; exists s; reflexivity | destruct s; reflexivity].
  - destruct s as [|cs s].
    + split; [discriminate | intros (post & [=])].
    + rewrite andb_true_iff, Ascii.eqb_eq, IH. split.
      * intros [-> (post & ->)]. exists post. reflexivity.
      * intros (post & [= -> ->]). split; [reflexivity | exists post; reflexivity].
Qed.

Lemma includes_iff s t : includes s t = true <-> Substring t s.
Proof.
  unfold Substring. induction s as [|c s IH].
  - cbn [includes]. rewrite orb_false_r, startsWith_iff. split.
    + intros (post & H). exists "", post. exact H.
    + intros (pre & post & H). destruct pre; [exists post; exact H | discriminate].
  - cbn [includes]. rewrite orb_true_iff, startsWith_iff, IH. split.
    + intros [(post & H)|(pre & post & H)].
      * exists "", post. exact H.
      * exists (String c pre), post. simpl. rewrite <- H. reflexivity.
    + intros (pre & post & H). destruct pre as [|c' pre].
      * left. exists post. exact H.
      * right. simpl in H. injection H as _ H. exists pre, post. exact H.
Qed.

(** *** White space and letter case, character by character *)

Lemma isSpace_isWhiteSpace c : isSpace c = isWhiteSpace c.
Proof. destruct c as [[] [] [] [] [] [] [] []]; reflexivity. Qed.

Lemma lowerChar_smallOf c : lowerChar c = smallOf c.
Proof. destruct c as [[] [] [] [] [] [] [] []]; reflexivity. Qed.

Lemma toLowerCase_LowerCaseOf s : LowerCaseOf s (toLowerCase s).
Proof.
  unfold LowerCaseOf. induction s as [|c s IH]; cbn [toLowerCase mapChars]; [reflexivity|].
  rewrite lowerChar_smallOf, IH. reflexivity.
Qed.

Lemma LowerCase_Lowercased s : LowerCase s <-> Lowercased s.
Proof.
  pose proof (toLowerCase_LowerCaseOf s) as H.
  unfold LowerCase, Lowercased, LowerCaseOf in *. rewrite <- H.
  split; intros E; symmetry; exact E.
Qed.

End StrFacts.

(** ** The filter of the search index *)

Section ResultsClaims.

Import Str StrSpec StrFacts.

Local Open Scope string_scope.

Lemma forallb_includes_iff lbl tokens :
  forallb (fun t => includes lbl t) tokens = true <->
  forall t, In t tokens -> Substring t lbl.
Proof.
  rewrite forallb_forall. split; intros H t Hin; apply includes_iff, H, Hin.
Qed.

Lemma results_blank text index : Blank text -> results text index = [].
Proof.
  intros H. unfold results.
  rewrite (proj2 (trim_empty_iff text) H). reflexivity.
Qed.

Lemma results_not_blank text index :
  ~ Blank text ->
  results text index =
  firstn 50
    (filter
       (fun item =>
          forallb (fun t => includes (toLowerCase (label item)) t)
            (splitWs (trim (toLowerCase text))))
       index).
Proof.
  intros H. unfold results.
  destruct (trim text) as [|c t] eqn:E; [|reflexivity].
  exfalso. apply H, trim_empty_iff, E.
Qed.

(** The filter, for an index whose labels are in lower case. *)
Lemma results_lowercased index text :
  Forall (fun item => Lowercased (label item)) index ->
  ~ Blank text ->
  Tokenised (trim (toLowerCase text)) (splitWs (trim (toLowerCase text))) /\
  exists matchesAll : SearchResult -> bool,
    (forall item,
        matchesAll item = true <->
        forall t, In t (splitWs (trim (toLowerCase text))) -> Substring t (label item)) /\
    results text index = firstn 50 (filter matchesAll index).
Proof.
  intros Hlower Hblank. split.
  - destruct (trim_Trimmed (toLowerCase text)) as (pre & post & _ & _ & _ & Hhead & Hlast).
    apply splitWs_Tokenised; try assumption.
    intros Hq. apply Hblank, Blank_toLowerCase, trim_empty_iff, Hq.
  - exists (fun item =>
              forallb (fun t => includes (label item) t)
                (splitWs (trim (toLowerCase text)))).
    split; [intros item; apply forallb_includes_iff|].
    rewrite results_not_blank by assumption. f_equal.
    apply filter_ext_in. intros item Hin.
    rewrite Forall_forall in Hlower. rewrite (Hlower item Hin). reflexivity.
Qed.

(** C3: the filter lowercases the text typed (every capital, [A] to [Z]
    and U+00C0 to U+00DE, becomes its small letter) and trims it, splits
    it at its runs of white space (tab to carriage return, space and
    no-break space) into tokens, and returns the first 50, in the order of
    the index, of the entries whose label contains every token; for an
    empty or blank text it returns nothing.  The labels of an index have
    no capital. *)
Theorem results_spec (index : list SearchResult) (text : string) :
  Forall (fun item => LowerCase (label item)) index ->
  let lowered := toLowerCase text in
  let q := trim lowered in
  let tokens := splitWs q in
  (forall c, isSpace c = isWhiteSpace c) /\
  LowerCaseOf text lowered /\
  Trimmed lowered q /\
  (Blank text -> results text index = []) /\
  (~ Blank text ->
   Tokenised q tokens /\
   exists matchesAll : SearchResult -> bool,
     (forall item,
         matchesAll item = true <->
         forall t, In t tokens -> Substring t (label item)) /\
     results text index = firstn 50 (filter matchesAll index)).
Proof.
  intros Hlower; cbv zeta.
  split; [exact isSpace_isWhiteSpace|].
  split; [apply toLowerCase_LowerCaseOf|].
  split; [apply trim_Trimmed|].
  split; [apply results_blank|].
  apply results_lowercased.
  eapply Forall_impl; [|exact Hlower]. intros item. apply LowerCase_Lowercased.
Qed.

(** The text [ PI#AS% Las ], with capital N with tilde for [#] and a
    no-break space for [%], has the tokens [pi#as] (small n with tilde)
    and [las], and selects [las pi#as, metro manila]. *)
Lemma results_spec_witness :
  exists matchesAll : SearchResult -> bool,
    (forall item,
        matchesAll item = true <->
        forall t, In t ["pi" ++ String Sample.smallNTilde "as"; "las"]%string ->
                  Substring t (label item)) /\
    results Sample.shoutedPinas Sample.pinasIndex =
    firstn 50 (filter matchesAll Sample.pinasIndex) /\
    results Sample.shoutedPinas Sample.pinasIndex = [Sample.lasPinas].
Proof.
  assert (Hindex : Forall (fun item => LowerCase (label item)) Sample.pinasIndex).
  { repeat (apply Forall_cons; [reflexivity|]). apply Forall_nil. }
  assert (Htext : ~ Blank Sample.shoutedPinas) by (intros H; discriminate H).
  destruct (results_spec Sample.pinasIndex Sample.shoutedPinas Hindex)
    as (_ & _ & _ & _ & Hmatch).
  destruct (Hmatch Htext) as (_ & matchesAll & Hiff & Hres).
  exists matchesAll. split; [exact Hiff|]. split; [exact Hres | reflexivity].
Defined.

(** The three tokens of that text select the first entry only; [san jose]
    selects both entries, in the order of the index; a blank text selects
    nothing. *)
Example results_san_jose_batangas :
  splitWs (trim (toLowerCase "  San JOSE   batangas ")) = ["san"; "jose"; "batangas"] /\
  map label (results "  San JOSE   batangas " Sample.sanJoseIndex) =
  ["san jose, batangas"] /\
  map label (results "san jose" Sample.sanJoseIndex) =
  ["san jose, batangas"; "san jose del monte, bulacan"] /\
  results "   " Sample.sanJoseIndex = [] /\
  results "" Sample.sanJoseIndex = [].
Proof. repeat split. Qed.

End ResultsClaims.

(** ** The search index *)

Section SortFacts.

Context {A : Type}.
Variable cmp : A -> A -> Z.

Lemma insertSorted_perm x l : Permutation (insertSorted cmp x l) (x :: l).
Proof.
  induction l as [|y l IH]; cbn [insertSorted]; [reflexivity|].
  destruct (cmp x y <=? 0)%Z; [reflexivity|].
  rewrite IH. apply perm_swap.
Qed.

Lemma sort_perm l : Permutation (sort cmp l) l.
Proof.
  induction l as [|x l IH]; cbn [sort]; [reflexivity|].
  rewrite insertSorted_perm, IH. reflexivity.
Qed.

Hypothesis cmp_total : forall a b, (cmp a b <= 0)%Z \/ (cmp b a <= 0)%Z.
Hypothesis cmp_trans :
  forall a b c, (cmp a b <= 0)%Z -> (cmp b c <= 0)%Z -> (cmp a c <= 0)%Z.



End SortFacts.

Section LexCompareFacts.

Import IndexSpec.




End LexCompareFacts.

Section IndexFacts.

Import IndexSpec.

Lemma filter_filter {A : Type} (f g : A -> bool) l :
  filter f (filter g l) = filter (fun x => g x && f x) l.
Proof.
  induction l as [|x l IH]; cbn [filter]; [reflexivity|].
  destruct (g x); cbn [filter andb]; [destruct (f x)|]; rewrite IH; reflexivity.
Qed.


(** *** First seen wins *)


(** A record is kept exactly when no record before it has its key. *)
Lemma firstSeenByKey_In l x :
  In x (firstSeenByKey l) <->
  exists before after,
    l = before ++ x :: after /\ forall y, In y before -> keyOf y <> keyOf x.
Proof.
  induction l as [|a l IH]; cbn [firstSeenByKey].
  - split; [intros [] | intros (before & after & H & _)].
    destruct before; discriminate.
  - split.
    + intros [<-|Hin].
      * exists [], l. split; [reflexivity | intros y []].
      * apply filter_In in Hin. destruct Hin as [Hin Hneq].
        apply negb_true_iff, String.eqb_neq in Hneq.
        apply IH in Hin. destruct Hin as (before & after & -> & Hfirst).
        exists (a :: before), after. split; [reflexivity|].
        intros y [<-|Hy]; [congruence | apply Hfirst, Hy].
    + intros (before & after & Hl & Hfirst).
      destruct before as [|a' before]; cbn [app] in Hl; injection Hl as -> ->.
      * now left.
      * right. apply filter_In. split.
        -- apply IH. exists before, after. split; [reflexivity|].
           intros y Hy. apply Hfirst. now right.
        -- apply negb_true_iff, String.eqb_neq. intros Heq.
           apply (Hfirst a'); [now left | congruence].
Qed.

(** Every key met is the key of a record kept. *)
Lemma firstSeenByKey_covers l x :
  In x l -> exists x', In x' (firstSeenByKey l) /\ keyOf x' = keyOf x.
Proof.
  induction l as [|a l IH]; [intros []|]. cbn [firstSeenByKey].
  destruct (String.eqb (keyOf x) (keyOf a)) eqn:E.
  - intros _. apply String.eqb_eq in E. exists a. split; [now left | congruence].
  - intros [->|Hin]; [rewrite String.eqb_refl in E; discriminate|].
    destruct (IH Hin) as (x' & Hin' & Hkey). exists x'. split; [|assumption].
    right. apply filter_In. split; [assumption|]. rewrite Hkey, E. reflexivity.
Qed.

(** The key stands for the pair (province, municipality) as long as no
    province contains the separator. *)
Lemma muniKey_inj p1 m1 p2 m2 :
  noBar p1 = true -> noBar p2 = true ->
  muniKey p1 m1 = muniKey p2 m2 -> p1 = p2 /\ m1 = m2.
Proof.
  unfold muniKey, noBar. revert p2.
  induction p1 as [|c p1 IH]; intros [|c' p2]; cbn; intros H1 H2 Heq.
  - injection Heq as ->. auto.
  - injection Heq as <- _. discriminate.
  - injection Heq as -> _. discriminate.
  - injection Heq as -> Heq.
    apply andb_true_iff in H1, H2. destruct H1 as [_ H1], H2 as [_ H2].
    destruct (IH p2 H1 H2 Heq) as [-> ->]. auto.
Qed.



End IndexFacts.

Section IndexLoop.

Import IndexSpec.

Lemma mapHas_app k mp k' v :
  mapHas k (mp ++ [(k', v)]) = mapHas k mp || String.eqb k' k.
Proof.
  unfold mapHas. rewrite existsb_app. cbn. rewrite orb_false_r. reflexivity.
Qed.

Lemma mapSet_fresh k v mp : mapHas k mp = false -> mapSet k v mp = mp ++ [(k, v)].
Proof.
  induction mp as [|[k' v'] mp IH]; cbn; [reflexivity|].
  intros H. apply orb_false_iff in H. destruct H as [H1 H2].
  rewrite H1, IH by assumption. reflexivity.
Qed.

Lemma propsOfList_cons feat feats :
  propsOfList (feat :: feats) =
  match properties feat with
  | Some props => props :: propsOfList feats
  | None => propsOfList feats
  end.
Proof. unfold propsOfList; cbn. destruct (properties feat); reflexivity. Qed.

(** The state of the loop of [searchIndex] after a list of features: the
    map holds, after what it held, the first record seen for each key it
    did not hold; the list holds one entry more per record. *)
Lemma indexLoop feats : forall muniSet brgyList,
  fold_left indexStep feats (muniSet, brgyList) =
  (muniSet ++
   map (fun x => (keyOf x, muniEntry x))
     (filter (fun x => negb (mapHas (keyOf x) muniSet))
        (firstSeenByKey (propsOfList feats))),
   brgyList ++ map brgyEntry (propsOfList feats)).
Proof.
  induction feats as [|feat feats IH]; intros muniSet brgyList.
  - cbn. rewrite !app_nil_r. reflexivity.
  - cbn [fold_left]. rewrite propsOfList_cons. unfold indexStep at 2.
    destruct (properties feat) as [props|]; [|apply IH].
    cbv zeta. fold (keyOf props). cbn [firstSeenByKey filter].
    destruct (mapHas (keyOf props) muniSet) eqn:Hhas; cbn [negb].
    + rewrite IH, <- app_assoc. cbn [app map]. f_equal. f_equal. f_equal.
      rewrite filter_filter. apply filter_ext. intros y.
      destruct (mapHas (keyOf y) muniSet) eqn:Hy; cbn [negb]; [symmetry; apply andb_false_r|].
      rewrite andb_true_r. symmetry. apply negb_true_iff, String.eqb_neq.
      intros Heq. rewrite Heq in Hy. congruence.
    + rewrite mapSet_fresh by assumption.
      rewrite IH, <- !app_assoc. cbn [app map]. f_equal. f_equal. f_equal. f_equal.
      rewrite filter_filter. apply filter_ext. intros y.
      rewrite mapHas_app, negb_orb, String.eqb_sym. apply andb_comm.
Qed.

(** [searchIndex] without its loop. *)
Lemma searchIndex_unfold localeCompare data :
  searchIndex localeCompare data =
  sort (byLabel localeCompare) (map muniEntry (firstSeenByKey (propsOf data))) ++
  sort (byLabel localeCompare) (map brgyEntry (propsOf data)).
Proof.
  unfold searchIndex, propsOf.
  destruct (features data) as [|feat feats] eqn:E; [reflexivity|].
  rewrite indexLoop. cbn [app negb mapHas existsb].
  unfold mapValues. rewrite map_map. cbn [snd].
  assert (Hall : forall l : list BarangayProperties, filter (fun _ => true) l = l).
  { induction l as [|x l IHl]; cbn; [|rewrite IHl]; reflexivity. }
  rewrite Hall. reflexivity.
Qed.

End IndexLoop.

Section IndexClaims.

Import IndexSpec.

Variable localeCompare : string -> string -> Z.

(** The host's comparator is taken to be a total preorder. *)
Hypothesis localeCompare_total :
  forall a b, (localeCompare a b <= 0)%Z \/ (localeCompare b a <= 0)%Z.
Hypothesis localeCompare_trans :
  forall a b c,
    (localeCompare a b <= 0)%Z -> (localeCompare b c <= 0)%Z ->
    (localeCompare a c <= 0)%Z.




End IndexClaims.

Section IndexExamples.

Import IndexSpec StrSpec StrFacts.

Local Open Scope string_scope.

(** The labels of a built index are in lower case, as the filter of the
    index expects. *)
Lemma searchIndex_lowercased localeCompare data :
  Forall (fun item => Lowercased (label item)) (searchIndex localeCompare data).
Proof.
  rewrite searchIndex_unfold. apply Forall_app. split.
  - apply (Permutation_Forall (Permutation_sym (sort_perm _ _))).
    apply Forall_forall. intros entry Hin. apply in_map_iff in Hin.
    destruct Hin as (x & <- & _). apply toLowerCase_idem.
  - apply (Permutation_Forall (Permutation_sym (sort_perm _ _))).
    apply Forall_forall. intros entry Hin. apply in_map_iff in Hin.
    destruct Hin as (x & <- & _). apply toLowerCase_idem.
Qed.

(** No label of a built index has a capital. *)
Lemma searchIndex_LowerCase localeCompare data :
  Forall (fun item => LowerCase (label item)) (searchIndex localeCompare data).
Proof.
  eapply Forall_impl; [|apply searchIndex_lowercased].
  intros item. apply LowerCase_Lowercased.
Qed.

Remark muniKey_separator : muniKey "a|b" "c" = muniKey "a" "b|c".
Proof. reflexivity. Qed.

(** X22: when no province contains the separator [|] of the key, every
    (province, municipality) pair of the collection has its municipality
    entry in the index. *)
Lemma searchIndex_pairs localeCompare data props :
  Forall (fun x => noBar (BP.p x) = true) (propsOf data) ->
  In props (propsOf data) ->
  exists entry,
    In entry (searchIndex localeCompare data) /\ type entry = municipalityType /\
    province entry = BP.p props /\ municipality entry = BP.m props.
Proof.
  intros Hbar Hin. rewrite Forall_forall in Hbar.
  destruct (firstSeenByKey_covers _ _ Hin) as (x & Hx & Hkey).
  assert (Hxin : In x (propsOf data)).
  { apply firstSeenByKey_In in Hx. destruct Hx as (before & after & -> & _).
    apply in_elt. }
  destruct (muniKey_inj _ _ _ _ (Hbar x Hxin) (Hbar props Hin) Hkey) as [Hp Hm].
  exists (muniEntry x). rewrite searchIndex_unfold.
  split; [|cbn; auto].
  apply in_or_app. left.
  apply (Permutation_in _ (Permutation_sym (sort_perm _ _))), in_map, Hx.
Qed.

Lemma searchIndex_pairs_witness :
  exists entry,
    In entry (searchIndex lexCompare Sample.threeBarangays) /\
    type entry = municipalityType /\
    province entry = BP.p Sample.lahugProps /\
    municipality entry = BP.m Sample.lahugProps.
Proof.
  apply (searchIndex_pairs lexCompare Sample.threeBarangays Sample.lahugProps).
  - repeat constructor.
  - now left.
Defined.

(** The index of three barangays of two municipalities: the municipality
    [quezon city, metro manila] comes before the barangay
    [barangay 1, quezon city, metro manila], whose label is the smaller. *)
Example searchIndex_threeBarangays :
  map (fun entry => (label entry, type entry))
    (searchIndex lexCompare Sample.threeBarangays) =
  [ ("cebu city, cebu", municipalityType);
    ("quezon city, metro manila", municipalityType);
    ("apolonio samson, quezon city, metro manila", barangayType);
    ("barangay 1, quezon city, metro manila", barangayType);
    ("lahug, cebu city, cebu", barangayType) ] /\
  (lexCompare "barangay 1, quezon city, metro manila" "quezon city, metro manila" < 0)%Z.
Proof. split; reflexivity. Qed.

End IndexExamples.

Section IndexWitness.

Import IndexSpec.



End IndexWitness.

(** ** Restyling *)

Section Restyling.

Import StrSpec.

Local Open Scope R_scope.

(** A negative share, which the clamp lets through, gives NaN channels. *)
Lemma getFillColor_negative share color : share < 0 -> getFillColor share color = RgbNaN.
Proof.
  intros H. unfold getFillColor. destruct (hexToRgb color) as [[r g] b].
  rewrite Math_min_unit by lra. rewrite Math_sqrt_neg by lra. reflexivity.
Qed.

Lemma getFillColor_defined share color :
  0 <= share <= 1 -> getFillColor share color <> RgbNaN.
Proof.
  intros H. destruct (hexToRgb color) as [[r g] b] eqn:Hrgb.
  rewrite (getFillColor_unit share color r g b Hrgb H). discriminate.
Qed.

Lemma getMultiHueFillColor_defined share :
  0 <= share <= 1 -> getMultiHueFillColor share <> RgbNaN.
Proof.
  intros H. unfold getMultiHueFillColor.
  rewrite Math_min_unit, Math_sqrt_nonneg by lra.
  destruct (nullish _ _) as [lo hi]. discriminate.
Qed.

(** After the restyling effect no feature of the collection is filled
    with a NaN colour, whatever the selection, as long as the votes of the
    candidate are not negative. *)
Lemma getStyle_fill_defined data candidateId color' highContrast refs selection feat :
  (forall feat' props',
      In feat' (features data) -> properties feat' = Some props' ->
      0 <= votesOf props' candidateId) ->
  In feat (features data) ->
  fillColor
    (getStyle
       (updateSearchRef selection
          (updateStyleRefs data candidateId color' highContrast refs))
       (Some feat)) <> RgbNaN.
Proof.
  intros Hvotes Hin. unfold getStyle.
  destruct feat as [[props|] geom]; [|discriminate].
  cbn [updateSearchRef updateStyleRefs candidateIdRef colorRef searchRef
       highContrastRef maxShareRef fillColor].
  assert (Hnorm : 0 <= normalizedOf (computeMaxShare data candidateId)
                         (shareOf props candidateId) <= 1).
  { apply normalizedOf_unit. split.
    - apply shareOf_nonneg. exact (Hvotes _ props Hin eq_refl).
    - exact (shareOf_le_observedMax data candidateId _ props Hin eq_refl). }
  destruct highContrast;
    [apply getMultiHueFillColor_defined | apply getFillColor_defined]; exact Hnorm.
Qed.

(** Restyling twice from the same state gives the same styles. *)
Lemma updateStyleRefs_idem data candidateId color' highContrast refs :
  updateStyleRefs data candidateId color' highContrast
    (updateStyleRefs data candidateId color' highContrast refs) =
  updateStyleRefs data candidateId color' highContrast refs.
Proof. reflexivity. Qed.

(** The filter on a built index: its labels are in lower case. *)
Lemma results_on_searchIndex localeCompare data text :
  ~ Blank text ->
  exists matchesAll : SearchResult -> bool,
    (forall item,
        matchesAll item = true <->
        forall t, In t (Str.splitWs (Str.trim (Str.toLowerCase text))) ->
                  Substring t (label item)) /\
    results text (searchIndex localeCompare data) =
    firstn 50 (filter matchesAll (searchIndex localeCompare data)).
Proof.
  intros Hblank.
  apply (results_lowercased (searchIndex localeCompare data) text
           (searchIndex_lowercased localeCompare data) Hblank).
Qed.

End Restyling.

(** * Further properties of the sources *)

(** ** [hexToRgb] *)

Section HexFacts.

Import ColorSpec StrSpec.

Local Open Scope string_scope.

Lemma hexDigit_lowerChar c : hexDigit (Str.lowerChar c) = hexDigit c.
Proof. destruct c as [[] [] [] [] [] [] [] []]; reflexivity. Qed.

Lemma isHash_lowerChar c : Ascii.eqb (Str.lowerChar c) "#" = Ascii.eqb c "#".
Proof. destruct c as [[] [] [] [] [] [] [] []]; reflexivity. Qed.

Lemma parseHexPair_lowerChar c1 c2 :
  parseHexPair (Str.lowerChar c1) (Str.lowerChar c2) = parseHexPair c1 c2.
Proof. unfold parseHexPair. rewrite !hexDigit_lowerChar. reflexivity. Qed.

Lemma stripHash_toLowerCase hex :
  stripHash (Str.toLowerCase hex) = Str.toLowerCase (stripHash hex).
Proof.
  destruct hex as [|c hex]; [reflexivity|]. cbn [Str.toLowerCase stripHash].
  rewrite isHash_lowerChar. destruct (Ascii.eqb c "#"); reflexivity.
Qed.

Lemma parseHexPair_Some c1 c2 v :
  parseHexPair c1 c2 = Some v -> isHexChar c1 = true /\ isHexChar c2 = true.
Proof.
  unfold parseHexPair, isHexChar.
  destruct (hexDigit c1); [|discriminate]. destruct (hexDigit c2); [|discriminate].
  auto.
Qed.

(** X1: whatever the text, the three channels [hexToRgb] returns are
    integers between 0 and 255. *)
Theorem hexToRgb_bytes (hex : string) :
  let '(r, g, b) := hexToRgb hex in
  (0 <= r <= 255)%Z /\ (0 <= g <= 255)%Z /\ (0 <= b <= 255)%Z.
Proof.
  destruct (hexToRgb hex) as [[r g] b] eqn:E. exact (hexToRgb_range hex r g b E).
Qed.

(** X2: a text that is not six hexadecimal digits, after an optional
    leading [#], is read as the fallback colour [(251, 146, 60)]. *)
Theorem hexToRgb_fallback (hex : string) :
  hexToRgb hex <> fallbackColor ->
  String.length (stripHash hex) = 6%nat /\ allChars isHexChar (stripHash hex) = true.
Proof.
  unfold hexToRgb, fallbackColor.
  destruct (stripHash hex) as [|r1 [|r2 [|g1 [|g2 [|b1 [|b2 [|x rest]]]]]]];
    try congruence.
  destruct (parseHexPair r1 r2) as [vr|] eqn:Er; [|congruence].
  destruct (parseHexPair g1 g2) as [vg|] eqn:Eg; [|congruence].
  destruct (parseHexPair b1 b2) as [vb|] eqn:Eb; [|congruence].
  intros _. split; [reflexivity|].
  destruct (parseHexPair_Some _ _ _ Er) as [H1 H2].
  destruct (parseHexPair_Some _ _ _ Eg) as [H3 H4].
  destruct (parseHexPair_Some _ _ _ Eb) as [H5 H6].
  cbn [allChars]. rewrite H1, H2, H3, H4, H5, H6. reflexivity.
Qed.

Lemma hexToRgb_fallback_witness :
  String.length (stripHash "#3b82f6") = 6%nat /\
  allChars isHexChar (stripHash "#3b82f6") = true.
Proof.
  apply (hexToRgb_fallback "#3b82f6"). unfold fallbackColor.
  replace (hexToRgb "#3b82f6") with (59, 130, 246)%Z by reflexivity.
  intros H. inversion H.
Defined.

(** X3: [hexToRgb] does not tell upper case from lower case, and the
    leading [#] is optional: a text that does not begin with [#] is read
    the same with a [#] in front. *)
Theorem hexToRgb_case_and_hash (hex : string) :
  headIsHash hex = false ->
  hexToRgb (Str.toLowerCase hex) = hexToRgb hex /\
  hexToRgb (String "#" hex) = hexToRgb hex /\
  hexToRgb (String "#" (Str.toLowerCase hex)) = hexToRgb hex.
Proof.
  intros Hhash.
  assert (Hlower : forall s, hexToRgb (Str.toLowerCase s) = hexToRgb s).
  { intros s. unfold hexToRgb. rewrite stripHash_toLowerCase.
    destruct (stripHash s) as [|r1 [|r2 [|g1 [|g2 [|b1 [|b2 [|x rest]]]]]]];
      try reflexivity.
    cbn [Str.toLowerCase]. rewrite !parseHexPair_lowerChar. reflexivity. }
  assert (Hopt : hexToRgb (String "#" hex) = hexToRgb hex).
  { unfold hexToRgb. cbn [stripHash]. rewrite Ascii.eqb_refl.
    destruct hex as [|c hex]; [reflexivity|].
    cbn [headIsHash] in Hhash. cbn [stripHash]. rewrite Hhash. reflexivity. }
  split; [apply Hlower|]. split; [exact Hopt|].
  change (String "#" (Str.toLowerCase hex)) with (Str.toLowerCase (String "#" hex)).
  rewrite Hlower. exact Hopt.
Qed.

Lemma hexToRgb_case_and_hash_witness :
  hexToRgb (Str.toLowerCase "3B82f6") = hexToRgb "3B82f6" /\
  hexToRgb (String "#" "3B82f6") = hexToRgb "3B82f6" /\
  hexToRgb (String "#" (Str.toLowerCase "3B82f6")) = hexToRgb "3B82f6".
Proof. apply (hexToRgb_case_and_hash "3B82f6"). reflexivity. Defined.

End HexFacts.

(** ** The range of the colour scale *)

Section ColorRange.

Import ColorSpec.

Local Open Scope R_scope.

Ltac decide_cmp :=
  repeat match goal with
    | |- context [geb ?x ?y] =>
        first [ rewrite (proj2 (geb_true x y)) by lra
              | rewrite (proj2 (geb_false x y)) by lra ]
    | |- context [leb ?x ?y] =>
        first [ rewrite (proj2 (leb_true x y)) by lra
              | rewrite (proj2 (leb_false x y)) by lra ]
    end.

Lemma Math_round_between lo hi x :
  IZR lo <= x <= IZR hi -> (lo <= Math_round x <= hi)%Z.
Proof.
  intros [Hlo Hhi].
  pose proof (Math_round_le _ _ Hlo) as H1. pose proof (Math_round_le _ _ Hhi) as H2.
  rewrite Math_round_IZR in H1, H2. split; assumption.
Qed.

Lemma sqrt_unit x : 0 <= x <= 1 -> 0 <= sqrt x <= 1.
Proof.
  intros [H0 H1]. split; [apply sqrt_pos|].
  rewrite <- sqrt_1. apply sqrt_le_1_alt, H1.
Qed.

(** The channels of the single-hue scale on the unit interval. *)
Lemma getFillColor_channel_bounds (share : R) (color : string) :
  0 <= share <= 1 ->
  let '(r, g, b) := hexToRgb color in
  exists r' g' b',
    getFillColor share color = Rgb r' g' b' /\
    (Math_round (IZR r * 0.08) <= r' <= r)%Z /\
    (Math_round (IZR g * 0.08) <= g' <= g)%Z /\
    (Math_round (IZR b * 0.08) <= b' <= b)%Z /\
    (0 <= r' <= 255)%Z /\ (0 <= g' <= 255)%Z /\ (0 <= b' <= 255)%Z.
Proof.
  intros Hshare. destruct (hexToRgb color) as [[r g] b] eqn:Hrgb.
  destruct (hexToRgb_range color r g b Hrgb) as (Hr & Hg & Hb).
  pose proof (sqrt_unit share Hshare) as Ht.
  assert (Hch : forall c, (0 <= c <= 255)%Z ->
            (Math_round (IZR c * 0.08) <=
             Math_round (IZR c * (0.08 + sqrt share * 0.92)) <= c)%Z /\
            (0 <= Math_round (IZR c * (0.08 + sqrt share * 0.92)) <= 255)%Z).
  { intros c [Hc0 Hc1]. apply IZR_le in Hc0.
    assert (Hup : (Math_round (IZR c * (0.08 + sqrt share * 0.92)) <= c)%Z).
    { rewrite <- (Math_round_IZR c) at 2. apply Math_round_le. nra. }
    assert (Hdown : (Math_round (IZR c * 0.08) <=
                     Math_round (IZR c * (0.08 + sqrt share * 0.92)))%Z).
    { apply Math_round_le. nra. }
    assert (H0 : (0 <= Math_round (IZR c * 0.08))%Z).
    { rewrite <- (Math_round_IZR 0). apply Math_round_le. nra. }
    lia. }
  exists (Math_round (IZR r * (0.08 + sqrt share * 0.92))),
         (Math_round (IZR g * (0.08 + sqrt share * 0.92))),
         (Math_round (IZR b * (0.08 + sqrt share * 0.92))).
  split; [apply getFillColor_unit; assumption|].
  destruct (Hch r Hr), (Hch g Hg), (Hch b Hb). tauto.
Qed.

(** X4: for a share in [0,1] every channel of the single-hue fill colour
    lies between the channel of the base colour scaled to 8% and the
    channel of the base colour itself, so it is a byte. *)
Theorem getFillColor_between (share : R) (color : string) :
  0 <= share <= 1 ->
  let '(r, g, b) := hexToRgb color in
  exists r' g' b',
    getFillColor share color = Rgb r' g' b' /\
    (Math_round (IZR r * 0.08) <= r' <= r)%Z /\
    (Math_round (IZR g * 0.08) <= g' <= g)%Z /\
    (Math_round (IZR b * 0.08) <= b' <= b)%Z /\
    (0 <= r' <= 255)%Z /\ (0 <= g' <= 255)%Z /\ (0 <= b' <= 255)%Z.
Proof. apply getFillColor_channel_bounds. Qed.

Lemma getFillColor_between_witness :
  let '(r, g, b) := hexToRgb "#3b82f6" in
  exists r' g' b',
    getFillColor 0.25 "#3b82f6" = Rgb r' g' b' /\
    (Math_round (IZR r * 0.08) <= r' <= r)%Z /\
    (Math_round (IZR g * 0.08) <= g' <= g)%Z /\
    (Math_round (IZR b * 0.08) <= b' <= b)%Z /\
    (0 <= r' <= 255)%Z /\ (0 <= g' <= 255)%Z /\ (0 <= b' <= 255)%Z.
Proof. apply (getFillColor_between 0.25 "#3b82f6"). lra. Defined.

(** The pair of stops found brackets [t], and both are stops of the
    list. *)
Lemma findStops_In t stops lo hi :
  findStops t stops = Some (lo, hi) ->
  In lo stops /\ In hi stops /\ stopPos lo <= t <= stopPos hi.
Proof.
  induction stops as [|s0 stops IH]; [discriminate|].
  destruct stops as [|s1 rest]; [discriminate|]. cbn [findStops].
  destruct (geb t (stopPos s0) && leb t (stopPos s1)) eqn:E.
  - intros [= <- <-]. apply andb_true_iff in E. destruct E as [E1 E2].
    apply geb_true in E1. apply leb_true in E2.
    split; [now left|]. split; [right; now left | lra].
  - intros H. destruct (IH H) as (H1 & H2 & H3).
    split; [now right|]. split; [now right | assumption].
Qed.

Lemma last_cons_default {A : Type} (x : A) l d d' : last (x :: l) d = last (x :: l) d'.
Proof.
  revert x. induction l as [|y l IH]; intros x; [reflexivity|].
  change (last (y :: l) d = last (y :: l) d'). apply IH.
Qed.

(** The search succeeds between the first and the last position. *)
Lemma findStops_Some t s0 s1 rest :
  stopPos s0 <= t <= stopPos (last (s1 :: rest) s0) ->
  exists lo hi, findStops t (s0 :: s1 :: rest) = Some (lo, hi).
Proof.
  assert (Hcons : forall a b l,
             findStops t (a :: b :: l) =
             if geb t (stopPos a) && leb t (stopPos b) then Some (a, b)
             else findStops t (b :: l)) by reflexivity.
  revert s0 s1. induction rest as [|s2 rest IH]; intros s0 s1 [H0 H1].
  - cbn [last] in H1. rewrite Hcons.
    rewrite (proj2 (geb_true _ _) H0), (proj2 (leb_true _ _) H1). cbn [andb]. eauto.
  - rewrite Hcons. destruct (geb t (stopPos s0) && leb t (stopPos s1)) eqn:E; [eauto|].
    rewrite (proj2 (geb_true _ _) H0) in E. cbn [andb] in E. apply leb_false in E.
    apply (IH s1 s2). split; [lra|].
    change (last (s1 :: s2 :: rest) s0) with (last (s2 :: rest) s0) in H1.
    rewrite (last_cons_default s2 rest s1 s0). exact H1.
Qed.

Lemma MULTI_HUE_STOPS_channels :
  Forall (fun s => 10 <= stopR s <= 255 /\ 10 <= stopG s <= 255 /\ 10 <= stopB s <= 255)
    MULTI_HUE_STOPS.
Proof.
  unfold MULTI_HUE_STOPS.
  repeat (apply Forall_cons; [cbn [stopR stopG stopB]; lra|]). apply Forall_nil.
Qed.

Lemma interpolate_between lo hi f a b :
  a <= lo <= b -> a <= hi <= b -> 0 <= f <= 1 -> a <= lo + (hi - lo) * f <= b.
Proof. intros. nra. Qed.

(** The channels of the multi-hue scale on the unit interval. *)
Lemma getMultiHueFillColor_channel_bounds (share : R) :
  0 <= share <= 1 ->
  (exists lo hi,
      findStops (sqrt share) MULTI_HUE_STOPS = Some (lo, hi) /\
      stopPos lo <= sqrt share <= stopPos hi) /\
  exists r g b,
    getMultiHueFillColor share = Rgb r g b /\
    (10 <= r <= 255)%Z /\ (10 <= g <= 255)%Z /\ (10 <= b <= 255)%Z.
Proof.
  intros Hshare. pose proof (sqrt_unit share Hshare) as Ht.
  destruct (findStops_Some (sqrt share) (0.0, 10, 10, 30) (0.15, 15, 60, 90)
              [ (0.3, 20, 120, 120); (0.45, 40, 170, 100); (0.6, 160, 200, 40);
                (0.75, 240, 180, 30); (0.9, 250, 100, 40); (1.0, 255, 240, 220) ])
    as (lo & hi & Hfind); [cbn [last stopPos]; lra|].
  change (findStops (sqrt share) MULTI_HUE_STOPS = Some (lo, hi)) in Hfind.
  destruct (findStops_In _ _ _ _ Hfind) as (Hlo & Hhi & Hpos).
  split; [exists lo, hi; auto|].
  unfold getMultiHueFillColor.
  rewrite Math_min_unit, Math_sqrt_nonneg by lra. rewrite Hfind. cbn [nullish].
  pose proof MULTI_HUE_STOPS_channels as Hch. rewrite Forall_forall in Hch.
  destruct (Hch lo Hlo) as (Rlo & Glo & Blo), (Hch hi Hhi) as (Rhi & Ghi & Bhi).
  assert (Hf : 0 <= (sqrt share - stopPos lo) / or_else (stopPos hi - stopPos lo) 1 <= 1).
  { unfold or_else. destruct (Req_dec_T (stopPos hi - stopPos lo) 0) as [E|E].
    - replace (sqrt share - stopPos lo) with 0 by lra. lra.
    - assert (Hpos' : 0 < stopPos hi - stopPos lo) by lra. split.
      + apply Rle_mult_inv_pos; lra.
      + replace 1 with ((stopPos hi - stopPos lo) / (stopPos hi - stopPos lo))
          by (field; lra).
        apply Rmult_le_compat_r; [left; now apply Rinv_0_lt_compat | lra]. }
  eexists _, _, _. split; [reflexivity|].
  split; [|split]; apply Math_round_between, interpolate_between; assumption.
Qed.

(** X5: for a share in [0,1] the search of the two stops succeeds and the
    multi-hue fill colour has numeric channels, each between 10 and 255. *)
Theorem getMultiHueFillColor_bytes (share : R) :
  0 <= share <= 1 ->
  (exists lo hi,
      findStops (sqrt share) MULTI_HUE_STOPS = Some (lo, hi) /\
      stopPos lo <= sqrt share <= stopPos hi) /\
  exists r g b,
    getMultiHueFillColor share = Rgb r g b /\
    (10 <= r <= 255)%Z /\ (10 <= g <= 255)%Z /\ (10 <= b <= 255)%Z.
Proof. apply getMultiHueFillColor_channel_bounds. Qed.

Lemma getMultiHueFillColor_bytes_witness :
  (exists lo hi,
      findStops (sqrt 0.25) MULTI_HUE_STOPS = Some (lo, hi) /\
      stopPos lo <= sqrt 0.25 <= stopPos hi) /\
  exists r g b,
    getMultiHueFillColor 0.25 = Rgb r g b /\
    (10 <= r <= 255)%Z /\ (10 <= g <= 255)%Z /\ (10 <= b <= 255)%Z.
Proof. apply (getMultiHueFillColor_bytes 0.25). lra. Defined.

(** X6: the multi-hue gradient passes through its stops: at the share
    whose square root is the position of a stop, the fill colour is the
    colour of that stop, for each of the eight stops. *)
Theorem getMultiHueFillColor_stops :
  Forall
    (fun s => getMultiHueFillColor (stopPos s * stopPos s) = stopColor s)
    MULTI_HUE_STOPS.
Proof.
  unfold MULTI_HUE_STOPS.
  repeat (apply Forall_cons;
          [ unfold getMultiHueFillColor, stopColor; cbn [stopPos];
            rewrite Math_min_unit by lra; rewrite Math_sqrt_nonneg by lra;
            rewrite sqrt_square by lra;
            unfold MULTI_HUE_STOPS, findStops, stopPos; decide_cmp;
            cbn [andb nullish stopR stopG stopB]; rewrite or_else_nonzero by lra;
            f_equal; apply f_equal; lra
          | ]).
  apply Forall_nil.
Qed.

(** X7: outside the unit interval the clamp is from above only.  A share
    of 1 or more is filled like a share of 1, with the base colour in
    single-hue mode and with the last stop in multi-hue mode; a negative
    share gives a colour with NaN channels in both modes. *)
Theorem fill_colour_outside_unit (share : R) (color : string) :
  let '(r, g, b) := hexToRgb color in
  (1 <= share ->
   getFillColor share color = Rgb r g b /\
   getMultiHueFillColor share = Rgb 255 240 220) /\
  (share < 0 ->
   getFillColor share color = RgbNaN /\ getMultiHueFillColor share = RgbNaN).
Proof.
  destruct (hexToRgb color) as [[r g] b] eqn:Hrgb. split.
  - intros H1.
    assert (Hmin : Math_min share 1 = Math_min 1 1).
    { unfold Math_min. rewrite !Rmin_right by lra. reflexivity. }
    split.
    + rewrite <- (getFillColor_one color r g b Hrgb).
      unfold getFillColor. rewrite Hmin. reflexivity.
    + rewrite <- getMultiHueFillColor_one.
      unfold getMultiHueFillColor. rewrite Hmin. reflexivity.
  - intros H0. split.
    + unfold getFillColor. rewrite Hrgb.
      rewrite Math_min_unit, Math_sqrt_neg by lra. reflexivity.
    + unfold getMultiHueFillColor.
      rewrite Math_min_unit, Math_sqrt_neg by lra. reflexivity.
Qed.

(** X21: after the restyling effect, whatever the selection, every
    feature of the collection that has a property record is filled with
    a colour of three bytes, as long as the votes of the candidate are not
    negative. *)
Theorem getStyle_fill_bytes (data : BarangayCollection) (candidateId color' : string)
  (highContrast : bool) (refs : Refs) (selection : option SearchResult)
  (feat : BarangayFeature) (props : BarangayProperties) :
  (forall feat' props',
      In feat' (features data) -> properties feat' = Some props' ->
      0 <= votesOf props' candidateId) ->
  In feat (features data) ->
  properties feat = Some props ->
  exists r g b,
    fillColor
      (getStyle
         (updateSearchRef selection
            (updateStyleRefs data candidateId color' highContrast refs))
         (Some feat)) = Rgb r g b /\
    (0 <= r <= 255)%Z /\ (0 <= g <= 255)%Z /\ (0 <= b <= 255)%Z.
Proof.
  intros Hvotes Hin Hprops. unfold getStyle.
  destruct feat as [fprops geom]. cbn [properties] in Hprops. subst fprops.
  cbn [updateSearchRef updateStyleRefs candidateIdRef colorRef searchRef
       highContrastRef maxShareRef fillColor].
  assert (Hnorm : 0 <= normalizedOf (computeMaxShare data candidateId)
                         (shareOf props candidateId) <= 1).
  { apply normalizedOf_unit. split.
    - apply shareOf_nonneg. exact (Hvotes _ props Hin eq_refl).
    - exact (shareOf_le_observedMax data candidateId _ props Hin eq_refl). }
  destruct highContrast.
  - destruct (getMultiHueFillColor_channel_bounds _ Hnorm)
      as (_ & r & g & b & -> & Hr & Hg & Hb).
    exists r, g, b. split; [reflexivity|]. lia.
  - pose proof (getFillColor_channel_bounds _ color' Hnorm) as H.
    destruct (hexToRgb color') as [[r0 g0] b0].
    destruct H as (r & g & b & -> & _ & _ & _ & Hr & Hg & Hb).
    exists r, g, b. auto.
Qed.

Lemma getStyle_fill_bytes_witness :
  exists r g b,
    fillColor
      (getStyle
         (updateSearchRef (Some Sample.cebuCity)
            (updateStyleRefs Sample.halfShare "s01" "#3b82f6" true
               {| candidateIdRef := ""; colorRef := ""; searchRef := None;
                  highContrastRef := false; maxShareRef := 0 |}))
         (Some Sample.lahug)) = Rgb r g b /\
    (0 <= r <= 255)%Z /\ (0 <= g <= 255)%Z /\ (0 <= b <= 255)%Z.
Proof.
  apply (getStyle_fill_bytes Sample.halfShare "s01" "#3b82f6" true _
           (Some Sample.cebuCity) Sample.lahug Sample.lahugProps).
  - intros feat' props' [<-|[]] [= <-]. unfold votesOf; cbn. lra.
  - now left.
  - reflexivity.
Defined.

End ColorRange.

(** ** More on the share normalisation *)

Section MaxShareFacts.

Local Open Scope R_scope.

Lemma maxFromZero_perm l l' : Permutation l l' -> maxFromZero l = maxFromZero l'.
Proof.
  induction 1 as [|x l l' _ IH|x y l|l l' l'' _ IH1 _ IH2]; cbn [maxFromZero fold_right].
  - reflexivity.
  - fold (maxFromZero l) (maxFromZero l'). rewrite IH. reflexivity.
  - rewrite !Rmax_assoc, (Rmax_comm y x). reflexivity.
  - fold (maxFromZero l) (maxFromZero l') (maxFromZero l'') in *. congruence.
Qed.

(** X8: [computeMaxShare] is positive for every collection and candidate,
    even with negative or absent votes, so the guard
    [maxShareRef.current > 0] of [getStyle] holds after a restyle and the
    normalised value is the quotient [share / maxShare]. *)
Theorem computeMaxShare_positive (data : BarangayCollection) (cId : string) :
  0 < computeMaxShare data cId /\
  forall share,
    normalizedOf (computeMaxShare data cId) share = share / computeMaxShare data cId.
Proof.
  assert (Hpos : 0 < computeMaxShare data cId).
  { unfold computeMaxShare. rewrite loop_observedMax.
    pose proof (maxFromZero_nonneg (observedShares data cId)) as H.
    fold (observedMax data cId) in H. unfold or_else.
    destruct (Req_dec_T (observedMax data cId) 0); lra. }
  split; [exact Hpos|]. intros share. unfold normalizedOf.
  rewrite (proj2 (gtb_true _ _) Hpos). reflexivity.
Qed.

(** X9: [computeMaxShare] does not depend on the order of the features. *)
Theorem computeMaxShare_perm (data data' : BarangayCollection) (cId : string) :
  Permutation (features data) (features data') ->
  computeMaxShare data cId = computeMaxShare data' cId.
Proof.
  intros Hperm. unfold computeMaxShare. rewrite !loop_observedMax.
  unfold observedMax, observedShares.
  rewrite (maxFromZero_perm _ _ (Permutation_flat_map _ Hperm)). reflexivity.
Qed.

Lemma computeMaxShare_perm_witness :
  computeMaxShare Sample.threeBarangays "s01" =
  computeMaxShare Sample.threeBarangaysReordered "s01".
Proof.
  apply (computeMaxShare_perm Sample.threeBarangays Sample.threeBarangaysReordered).
  cbn [features Sample.threeBarangays Sample.threeBarangaysReordered].
  apply Permutation_sym, (Permutation_cons_app [Sample.lahug; Sample.barangay1] []).
  reflexivity.
Defined.

End MaxShareFacts.

(** ** From the search index to the map *)

Section IndexToMap.

Import IndexSpec MapSpec.

Local Open Scope R_scope.

Lemma propsOfList_In feats props :
  In props (propsOfList feats) <->
  exists feat, In feat feats /\ properties feat = Some props.
Proof.
  unfold propsOfList. rewrite in_flat_map. split.
  - intros (feat & Hin & H). exists feat. split; [assumption|].
    destruct (properties feat) as [q|]; [|destruct H].
    destruct H as [->|[]]. reflexivity.
  - intros (feat & Hin & H). exists feat. split; [assumption|].
    rewrite H. now left.
Qed.

Lemma firstSeenByKey_incl l x : In x (firstSeenByKey l) -> In x l.
Proof.
  intros H. apply firstSeenByKey_In in H. destruct H as (before & after & -> & _).
  apply in_elt.
Qed.

(** Where an entry of the index comes from. *)
Lemma searchIndex_entry_source localeCompare data entry :
  In entry (searchIndex localeCompare data) ->
  exists feat props,
    In feat (features data) /\ properties feat = Some props /\
    (entry = muniEntry props \/ entry = brgyEntry props).
Proof.
  rewrite searchIndex_unfold. intros Hin. apply in_app_or in Hin.
  assert (Hsrc : exists props, In props (propsOf data) /\
                   (entry = muniEntry props \/ entry = brgyEntry props)).
  { destruct Hin as [Hin|Hin];
      apply (Permutation_in _ (sort_perm _ _)), in_map_iff in Hin;
      destruct Hin as (props & <- & Hin); exists props.
    - split; [apply firstSeenByKey_incl, Hin | now left].
    - split; [exact Hin | now right]. }
  destruct Hsrc as (props & Hin' & Hentry).
  apply propsOfList_In in Hin'. destruct Hin' as (feat & Hfeat & Hprops).
  exists feat, props. auto.
Qed.

Lemma entry_matches_source props entry :
  entry = muniEntry props \/ entry = brgyEntry props ->
  zoomMatch entry props = true.
Proof.
  intros [->| ->]; unfold zoomMatch; cbn [type municipality province barangay
    muniEntry brgyEntry strictEqOpt]; rewrite !String.eqb_refl; reflexivity.
Qed.

(** X10: an entry of the built index never selects nothing: the feature
    it was built from is in the collection and matches it, for the style
    and for the viewport alike. *)
Theorem searchIndex_entry_matches (localeCompare : string -> string -> Z)
  (data : BarangayCollection) (entry : SearchResult) :
  In entry (searchIndex localeCompare data) ->
  exists feat props,
    In feat (features data) /\ properties feat = Some props /\
    isMatch (Some entry) props = true /\ zoomMatch entry props = true.
Proof.
  intros Hin.
  destruct (searchIndex_entry_source localeCompare data entry Hin)
    as (feat & props & Hfeat & Hprops & Hentry).
  exists feat, props.
  pose proof (entry_matches_source props entry Hentry) as Hm.
  repeat split; assumption.
Qed.

Lemma searchIndex_entry_matches_witness :
  exists feat props,
    In feat (features Sample.threeBarangays) /\ properties feat = Some props /\
    isMatch (Some (muniEntry Sample.lahugProps)) props = true /\
    zoomMatch (muniEntry Sample.lahugProps) props = true.
Proof.
  apply (searchIndex_entry_matches lexCompare Sample.threeBarangays
           (muniEntry Sample.lahugProps)).
  now left.
Defined.

(** *** The box fitted *)

Lemma extend_covers bounds other box' latlng :
  extend bounds other = Some box' ->
  (exists box, bounds = Some box /\ covers box latlng) \/
  (exists box, other = Some box /\ covers box latlng) ->
  covers box' latlng.
Proof.
  unfold extend, covers.
  destruct other as [[sw2 ne2]|], bounds as [[sw ne]|]; intros [= <-];
    intros [(box & [= <-] & H)|(box & [= <-] & H)]; cbn [fst snd] in *;
    try assumption.
  - pose proof (Rmin_r (fst sw2) (fst sw)). pose proof (Rmin_r (snd sw2) (snd sw)).
    pose proof (Rmax_r (fst ne2) (fst ne)). pose proof (Rmax_r (snd ne2) (snd ne)). lra.
  - pose proof (Rmin_l (fst sw2) (fst sw)). pose proof (Rmin_l (snd sw2) (snd sw)).
    pose proof (Rmax_l (fst ne2) (fst ne)). pose proof (Rmax_l (snd ne2) (snd ne)). lra.
Qed.

Lemma extend_wellFormed bounds other box' :
  extend bounds other = Some box' ->
  (forall box, bounds = Some box -> wellFormed box) ->
  (forall box, other = Some box -> wellFormed box) ->
  wellFormed box'.
Proof.
  unfold extend, wellFormed.
  destruct other as [[sw2 ne2]|], bounds as [[sw ne]|]; intros [= <-] Hb Ho;
    cbn [fst snd]; try (apply (Hb _ eq_refl)); try (apply (Ho _ eq_refl)).
  pose proof (Hb _ eq_refl) as [H1 H2]. cbn [fst snd] in H1, H2.
  pose proof (Rmin_r (fst sw2) (fst sw)). pose proof (Rmin_r (snd sw2) (snd sw)).
  pose proof (Rmax_r (fst ne2) (fst ne)). pose proof (Rmax_r (snd ne2) (snd ne)). lra.
Qed.

Lemma extend_valid_left bounds other :
  isValid bounds = true -> isValid (extend bounds other) = true.
Proof. intros H. rewrite isValid_extend, H. reflexivity. Qed.

(** The box of a geometry holds its positions. *)
Lemma getBounds_loop g : forall bounds latlng box',
  fold_left (fun b pt => extend b (Some (pt, pt))) g bounds = Some box' ->
  (exists box, bounds = Some box /\ covers box latlng) \/ In latlng g ->
  covers box' latlng.
Proof.
  induction g as [|pt g IH]; intros bounds latlng box' Hfold Hsrc; cbn [fold_left] in Hfold.
  - destruct Hsrc as [(box & Hb & Hc)|[]]. congruence.
  - apply (IH _ latlng _ Hfold).
    destruct (extend bounds (Some (pt, pt))) as [box|] eqn:E.
    2:{ destruct bounds as [[sw ne]|]; discriminate. }
    destruct Hsrc as [H|[->|H]]; [left | left | now right]; exists box;
      (split; [reflexivity|]); apply (extend_covers _ _ _ _ E).
    + now left.
    + right. exists (latlng, latlng). split; [reflexivity|]. unfold covers; cbn; lra.
Qed.

Lemma getBounds_wellFormed_loop g : forall bounds box',
  fold_left (fun b pt => extend b (Some (pt, pt))) g bounds = Some box' ->
  (forall box, bounds = Some box -> wellFormed box) ->
  wellFormed box'.
Proof.
  induction g as [|pt g IH]; intros bounds box' Hfold Hwf; cbn [fold_left] in Hfold.
  - apply Hwf, Hfold.
  - apply (IH _ _ Hfold). intros box E.
    apply (extend_wellFormed _ _ _ E Hwf).
    intros box0 [= <-]. unfold wellFormed; cbn; lra.
Qed.

Lemma getBounds_valid_loop g : forall bounds,
  isValid bounds = true ->
  isValid (fold_left (fun b pt => extend b (Some (pt, pt))) g bounds) = true.
Proof.
  induction g as [|pt g IH]; intros bounds H; [exact H|].
  cbn [fold_left]. apply IH, extend_valid_left, H.
Qed.

Lemma getBounds_nonempty pt g : isValid (getBounds (pt :: g)) = true.
Proof. unfold getBounds. cbn [fold_left]. apply getBounds_valid_loop. reflexivity. Qed.

Lemma zoomStep_Some sel bounds feat box :
  zoomStep sel bounds feat = Some box ->
  (forall latlng,
      (exists b, bounds = Some b /\ covers b latlng) \/
      (exists g, matchedGeometry sel feat g /\ In latlng g) ->
      covers box latlng) /\
  ((forall b, bounds = Some b -> wellFormed b) -> wellFormed box).
Proof.
  unfold zoomStep, matchedGeometry. intros Hstep.
  destruct (properties feat) as [props|] eqn:Hprops.
  2:{ split; [|intros H; apply H, Hstep].
      intros latlng [(b & Hb & Hc)|(g & (q & [=] & _) & _)]. congruence. }
  destruct (zoomMatch sel props) eqn:Hmatch.
  2:{ split; [|intros H; apply H, Hstep].
      intros latlng [(b & Hb & Hc)|(g & (q & [= <-] & Hq & _) & _)]; congruence. }
  destruct (geometry feat) as [g|] eqn:Hgeom.
  2:{ split; [|intros H; apply H, Hstep].
      intros latlng [(b & Hb & Hc)|(g & (q & _ & _ & [=]) & _)]. congruence. }
  split.
  - intros latlng Hsrc. apply (extend_covers _ _ _ _ Hstep).
    destruct Hsrc as [H|(g' & (q & _ & _ & [= <-]) & Hin)]; [now left|].
    right. destruct (getBounds g) as [gb|] eqn:Eg.
    + exists gb. split; [reflexivity|].
      apply (getBounds_loop g None latlng gb Eg). now right.
    + destruct g as [|pt g]; [destruct Hin|].
      pose proof (getBounds_nonempty pt g) as Hv. rewrite Eg in Hv. discriminate.
  - intros Hwf. apply (extend_wellFormed _ _ _ Hstep Hwf).
    intros gb Eg. apply (getBounds_wellFormed_loop g None gb Eg). discriminate.
Qed.

Lemma zoomStep_keeps sel feat box :
  exists box', zoomStep sel (Some box) feat = Some box'.
Proof.
  pose proof (proj2 (zoomStep_valid sel (Some box) feat) (or_introl eq_refl)) as H.
  destruct (zoomStep sel (Some box) feat) as [box'|]; [eauto | discriminate].
Qed.

Lemma zoomLoop_covers sel feats : forall bounds box,
  fold_left (zoomStep sel) feats bounds = Some box ->
  (forall latlng,
      (exists b, bounds = Some b /\ covers b latlng) \/
      (exists feat g, In feat feats /\ matchedGeometry sel feat g /\ In latlng g) ->
      covers box latlng) /\
  ((forall b, bounds = Some b -> wellFormed b) -> wellFormed box).
Proof.
  induction feats as [|feat feats IH]; intros bounds box Hfold; cbn [fold_left] in Hfold.
  - split; [|intros H; apply H, Hfold].
    intros latlng [(b & Hb & Hc)|(f & g & [] & _)]. congruence.
  - destruct (IH _ _ Hfold) as [IHc IHw].
    destruct (zoomStep sel bounds feat) as [mid|] eqn:Hstep.
    + destruct (zoomStep_Some _ _ _ _ Hstep) as [Hc Hw]. split.
      * intros latlng [H|(f & g & [<-|Hin] & Hm & Hpt)]; apply IHc.
        -- left. exists mid. split; [reflexivity | apply Hc; now left].
        -- left. exists mid. split; [reflexivity | apply Hc; right; eauto].
        -- right. eauto.
      * intros Hb. apply IHw. intros b [= <-]. apply Hw, Hb.
    + split.
      * intros latlng [(b & Hb & Hcov)|(f & g & [<-|Hin] & Hm & Hpt)]; apply IHc.
        -- subst bounds. destruct (zoomStep_keeps sel feat b) as (b' & E). congruence.
        -- exfalso. destruct Hm as (props & Hp & Hm & Hg).
           assert (Hv : isValid (zoomStep sel bounds feat) = true).
           { apply zoomStep_valid. right. exists props, g.
             repeat split; try assumption.
             destruct g as [|pt g]; [destruct Hpt | apply getBounds_nonempty]. }
           rewrite Hstep in Hv. discriminate.
        -- right. eauto.
      * intros _. apply IHw. discriminate.
Qed.

(** X11: the box the viewport is fitted to is well formed and holds every
    position of the geometry of every feature the selection matches. *)
Theorem zoomEffect_covers (data : BarangayCollection) (sel : SearchResult)
  (fit : FitBounds) :
  zoomEffect data (Some sel) = Some fit ->
  wellFormed (fitTo fit) /\
  forall feat g latlng,
    In feat (features data) -> matchedGeometry sel feat g -> In latlng g ->
    covers (fitTo fit) latlng.
Proof.
  unfold zoomEffect.
  destruct (fold_left (zoomStep sel) (features data) None) as [box|] eqn:Hfold;
    [|discriminate].
  intros [= <-]. cbn [fitTo].
  destruct (zoomLoop_covers sel (features data) None box Hfold) as [Hc Hw].
  split; [apply Hw; discriminate|].
  intros feat g latlng Hin Hm Hpt. apply Hc. right. eauto.
Qed.

Lemma zoomEffect_covers_witness :
  exists fit,
    zoomEffect Sample.mapped (Some Sample.cebuCity) = Some fit /\
    wellFormed (fitTo fit) /\
    forall feat g latlng,
      In feat (features Sample.mapped) -> matchedGeometry Sample.cebuCity feat g ->
      In latlng g -> covers (fitTo fit) latlng.
Proof.
  eexists. split; [reflexivity|].
  apply (zoomEffect_covers Sample.mapped Sample.cebuCity). reflexivity.
Defined.

(** X12: when every feature has a geometry with a position, selecting an
    entry of the built index always fits the viewport. *)
Theorem searchIndex_entry_fits (localeCompare : string -> string -> Z)
  (data : BarangayCollection) (entry : SearchResult) :
  In entry (searchIndex localeCompare data) ->
  (forall feat, In feat (features data) ->
                exists pt g, geometry feat = Some (pt :: g)) ->
  exists fit, zoomEffect data (Some entry) = Some fit.
Proof.
  intros Hin Hgeom.
  destruct (searchIndex_entry_source localeCompare data entry Hin)
    as (feat & props & Hfeat & Hprops & Hentry).
  destruct (Hgeom feat Hfeat) as (pt & g & Hg).
  assert (Hvalid : isValid (fold_left (zoomStep entry) (features data) None) = true).
  { apply zoomLoop_valid. right. exists feat. split; [assumption|].
    exists props, (pt :: g). repeat split; try assumption.
    - apply entry_matches_source, Hentry.
    - apply getBounds_nonempty. }
  unfold zoomEffect.
  destruct (fold_left (zoomStep entry) (features data) None) as [box|];
    [eauto | discriminate].
Qed.

Lemma searchIndex_entry_fits_witness :
  exists fit, zoomEffect Sample.mapped (Some (brgyEntry Sample.lahugProps)) = Some fit.
Proof.
  apply (searchIndex_entry_fits lexCompare Sample.mapped (brgyEntry Sample.lahugProps)).
  - right. now left.
  - intros feat [<-|[]]. eexists _, _. reflexivity.
Defined.

End IndexToMap.

(** ** More on the filter of the search index *)

Section ResultsFacts.

Import Str StrSpec StrFacts.

Local Open Scope string_scope.

Lemma trimStart_toLowerCase s : trimStart (toLowerCase s) = toLowerCase (trimStart s).
Proof.
  induction s as [|c s IH]; [reflexivity|]. cbn [toLowerCase trimStart].
  rewrite isSpace_lowerChar. destruct (isSpace c); [exact IH | reflexivity].
Qed.

Lemma trimEnd_toLowerCase s : trimEnd (toLowerCase s) = toLowerCase (trimEnd s).
Proof.
  induction s as [|c s IH]; [reflexivity|]. cbn [toLowerCase trimEnd].
  rewrite IH, isSpace_lowerChar.
  destruct (trimEnd s) as [|c' t]; cbn [toLowerCase]; [|reflexivity].
  destruct (isSpace c); reflexivity.
Qed.

Lemma trim_toLowerCase s : trim (toLowerCase s) = toLowerCase (trim s).
Proof. unfold trim. rewrite trimStart_toLowerCase, trimEnd_toLowerCase. reflexivity. Qed.

Lemma trimStart_fixed s : headIsSpace s = false -> trimStart s = s.
Proof. destruct s as [|c s]; cbn; [reflexivity|]. intros ->. reflexivity. Qed.

Lemma trimEnd_fixed s : lastIsSpace s = false -> trimEnd s = s.
Proof.
  induction s as [|c s IH]; [reflexivity|]. intros H.
  destruct s as [|c' s'].
  - cbn in H |- *. rewrite H. reflexivity.
  - assert (H' : lastIsSpace (String c' s') = false) by exact H.
    change (trimEnd (String c (String c' s')))
      with (match trimEnd (String c' s') with
            | EmptyString => if isSpace c then EmptyString else String c EmptyString
            | t => String c t
            end).
    rewrite (IH H'). reflexivity.
Qed.

Lemma trim_idem s : trim (trim s) = trim s.
Proof.
  destruct (trim_Trimmed s) as (pre & post & _ & _ & _ & Hhead & Hlast).
  unfold trim at 1. rewrite (trimStart_fixed _ Hhead). apply trimEnd_fixed, Hlast.
Qed.

(** X13: the filter does not tell upper case from lower case in the text
    typed and ignores the white space around it. *)
Theorem results_case_and_space (index : list SearchResult) (text : string) :
  results (toLowerCase text) index = results text index /\
  results (trim text) index = results text index.
Proof.
  unfold results. split.
  - rewrite toLowerCase_idem, trim_toLowerCase.
    destruct (trim text); reflexivity.
  - rewrite trim_idem, <- trim_toLowerCase, trim_idem. reflexivity.
Qed.

Lemma Substring_refl s : Substring s s.
Proof.
  exists "", "". cbn. induction s as [|c s IH]; cbn; [reflexivity|].
  rewrite <- IH. reflexivity.
Qed.

Lemma Substring_app t s pre post : Substring t s -> Substring t (pre ++ s ++ post).
Proof.
  intros (p & q & ->). exists (pre ++ p), (q ++ post).
  induction pre as [|c pre IH]; cbn.
  - clear. induction p as [|c p IH]; cbn.
    + induction t as [|c t IH]; cbn; [reflexivity|]. rewrite IH. reflexivity.
    + rewrite IH. reflexivity.
  - rewrite IH. reflexivity.
Qed.

(** Each token occurs in the text it is a token of. *)
Lemma Tokenised_Substring q tokens t :
  Tokenised q tokens -> In t tokens -> Substring t q.
Proof.
  induction 1 as [w Hw | w gap rest tokens Hw Hgap Hrest IH]; intros Hin.
  - destruct Hin as [<-|[]]. apply Substring_refl.
  - destruct Hin as [<-|Hin].
    + exists "", (gap ++ rest). reflexivity.
    + destruct (IH Hin) as (p & q & ->). exists (w ++ gap ++ p), q.
      clear. induction w as [|c w IHw]; cbn; [|rewrite IHw; reflexivity].
      induction gap as [|c gap IHg]; cbn; [|rewrite IHg; reflexivity].
      reflexivity.
Qed.

Lemma own_label_matches item :
  ~ Blank (label item) ->
  forallb (fun t => includes (toLowerCase (label item)) t)
    (splitWs (trim (toLowerCase (label item)))) = true.
Proof.
  intros Hblank. apply forallb_forall. intros t Hin. apply includes_iff.
  destruct (trim_Trimmed (toLowerCase (label item)))
    as (pre & post & Hs & _ & _ & Hhead & Hlast).
  assert (Htok : Tokenised (trim (toLowerCase (label item)))
                   (splitWs (trim (toLowerCase (label item))))).
  { apply splitWs_Tokenised; try assumption.
    intros Hq. apply Hblank, Blank_toLowerCase, trim_empty_iff, Hq. }
  rewrite Hs at 1. apply Substring_app.
  exact (Tokenised_Substring _ _ t Htok Hin).
Qed.

(** X14: after an entry is chosen its label becomes the text typed; the
    filter of that text returns the entry again, unless 50 entries are
    returned already. *)
Theorem results_own_label (index : list SearchResult) (item : SearchResult) :
  In item index -> ~ Blank (label item) ->
  In item (results (label item) index) \/
  length (results (label item) index) = 50%nat.
Proof.
  intros Hin Hblank. rewrite results_not_blank by assumption.
  set (f := fun e : SearchResult =>
              forallb (fun t => includes (toLowerCase (label e)) t)
                (splitWs (trim (toLowerCase (label item))))).
  assert (Hitem : In item (filter f index)).
  { apply filter_In. split; [assumption | apply own_label_matches, Hblank]. }
  destruct (Nat.le_gt_cases (length (filter f index)) 50) as [Hle|Hgt].
  - left. rewrite firstn_all2 by assumption. exact Hitem.
  - right. apply firstn_length_le. lia.
Qed.

Lemma results_own_label_witness :
  In Sample.cebuCity (results (label Sample.cebuCity) [Sample.cebuCity]) \/
  length (results (label Sample.cebuCity) [Sample.cebuCity]) = 50%nat.
Proof.
  apply (results_own_label [Sample.cebuCity] Sample.cebuCity).
  - now left.
  - unfold Blank. cbn. discriminate.
Defined.

(** X15: the filter depends on the set of tokens only, not on their order
    or on repetitions. *)
Theorem results_token_set (index : list SearchResult) (text1 text2 : string) :
  ~ Blank text1 -> ~ Blank text2 ->
  (forall t,
      In t (splitWs (trim (toLowerCase text1))) <->
      In t (splitWs (trim (toLowerCase text2)))) ->
  results text1 index = results text2 index.
Proof.
  intros H1 H2 Hsame. rewrite !results_not_blank by assumption. f_equal.
  apply filter_ext. intros e.
  destruct (forallb _ (splitWs (trim (toLowerCase text2)))) eqn:E2.
  - apply forallb_forall. intros t Hin. rewrite forallb_forall in E2.
    apply E2, Hsame, Hin.
  - destruct (forallb _ (splitWs (trim (toLowerCase text1)))) eqn:E1; [|reflexivity].
    rewrite <- E2. symmetry. apply forallb_forall. intros t Hin.
    rewrite forallb_forall in E1. apply E1, Hsame, Hin.
Qed.

Lemma results_token_set_witness :
  results "san jose" Sample.sanJoseIndex = results " JOSE  san jose" Sample.sanJoseIndex.
Proof.
  apply (results_token_set Sample.sanJoseIndex "san jose" " JOSE  san jose").
  - unfold Blank. cbn. discriminate.
  - unfold Blank. cbn. discriminate.
  - intros t.
    change (In t ["san"; "jose"] <-> In t ["jose"; "san"; "jose"]).
    cbn [In]. tauto.
Defined.

End ResultsFacts.

(** ** The search bar *)

Section SearchBarFacts.

Import StrSpec StrFacts.

Local Open Scope Z_scope.

Variable searchIndex : list SearchResult.

Lemma In_firstn {A : Type} (x : A) n l : In x (firstn n l) -> In x l.
Proof.
  intros H. rewrite <- (firstn_skipn n l). apply in_or_app. now left.
Qed.

Lemma results_incl text item : In item (results text searchIndex) -> In item searchIndex.
Proof.
  unfold results. destruct (negb _); [intros []|].
  intros H. apply In_firstn in H. apply filter_In in H. tauto.
Qed.

Lemma at_index_in_range {A : Type} (l : list A) i :
  0 <= i < Z.of_nat (length l) -> exists x, SB.at_index l i = Some x /\ In x l.
Proof.
  intros [H0 H1]. unfold SB.at_index.
  rewrite (proj2 (Z.ltb_ge i 0)) by assumption.
  destruct (nth_error l (Z.to_nat i)) as [x|] eqn:E.
  - exists x. split; [reflexivity | eapply nth_error_In, E].
  - apply nth_error_None in E. lia.
Qed.

Lemma InRange_reset before after :
  SB.InRange searchIndex before ->
  SB.selectedIndex after = SB.selectedIndex before \/
  SB.query before <> SB.query after ->
  SB.InRange searchIndex (SB.resetOnResults before after).
Proof.
  intros Hinv Hafter. unfold SB.resetOnResults.
  destruct (String.eqb_spec (SB.query before) (SB.query after)) as [E|E].
  - destruct Hafter as [Hsel|Hq]; [|contradiction].
    unfold SB.InRange in *. rewrite <- E, Hsel. exact Hinv.
  - unfold SB.InRange. cbn [SB.setSelectedIndex SB.query SB.selectedIndex].
    destruct (results (SB.query after) searchIndex); [now left|].
    right. cbn [length]. lia.
Qed.

Lemma InRange_select st i :
  SB.query (SB.setSelectedIndex i st) = SB.query st.
Proof. reflexivity. Qed.

(** One event keeps [selectedIndex] in range, raises no error and reports
    entries of the index only. *)
Lemma step_InRange ev st :
  SB.InRange searchIndex st ->
  exists st' calls,
    SB.step searchIndex ev st = Some (st', calls) /\
    SB.InRange searchIndex st' /\
    forall item, In (Some item) calls -> In item searchIndex.
Proof.
  intros Hinv. unfold SB.step.
  assert (Hsame : forall st', SB.query st' = SB.query st ->
                    (results (SB.query st) searchIndex <> [] ->
                     0 <= SB.selectedIndex st' <
                     Z.of_nat (length (results (SB.query st) searchIndex))) ->
                    SB.InRange searchIndex (SB.resetOnResults st st')).
  { intros st' Hq Hsel. unfold SB.resetOnResults. rewrite Hq, String.eqb_refl.
    unfold SB.InRange. rewrite Hq.
    destruct (results (SB.query st) searchIndex) eqn:E; [now left|].
    right. apply Hsel. discriminate. }
  assert (Hkeep : SB.InRange searchIndex (SB.resetOnResults st st)).
  { apply InRange_reset; auto. }
  assert (Hsel : forall result,
             In result (results (SB.query st) searchIndex) ->
             exists st' calls,
               match Some (SB.handleSelect result st) with
               | Some (st', calls) => Some (SB.resetOnResults st st', calls)
               | None => None
               end = Some (st', calls) /\
               SB.InRange searchIndex st' /\
               forall item, In (Some item) calls -> In item searchIndex).
  { intros result Hin. eexists _, _. split; [reflexivity|]. split.
    - apply InRange_reset; [assumption | now left].
    - intros item [[= <-]|[]]. eapply results_incl, Hin. }
  assert (Hnone : forall st',
             SB.InRange searchIndex (SB.resetOnResults st st') ->
             exists st'' calls,
               Some (SB.resetOnResults st st', @nil (option SearchResult)) =
               Some (st'', calls) /\
               SB.InRange searchIndex st'' /\
               forall item, In (Some item) calls -> In item searchIndex).
  { intros st' H. eexists _, _. split; [reflexivity|]. split; [exact H | intros item []]. }
  destruct ev as [text| |key|i|i| |]; cbn [SB.handle].
  - apply Hnone. apply InRange_reset; [assumption | now left].
  - apply Hnone. unfold SB.onFocus. destruct (Str.truthy _); [|exact Hkeep].
    apply InRange_reset; [assumption | now left].
  - unfold SB.handleKeyDown.
    destruct (negb (SB.open st) || (length (results (SB.query st) searchIndex) =? 0)%nat)
      eqn:Hguard; [apply Hnone, Hkeep|].
    apply orb_false_iff in Hguard. destruct Hguard as [_ Hlen].
    apply Nat.eqb_neq in Hlen.
    assert (Hrange : 0 <= SB.selectedIndex st <
                     Z.of_nat (length (results (SB.query st) searchIndex))).
    { destruct Hinv as [E|H]; [rewrite E in Hlen; contradiction | exact H]. }
    destruct key.
    + apply Hnone, Hsame; [reflexivity|]. intros _. cbn [SB.setSelectedIndex SB.selectedIndex]. lia.
    + apply Hnone, Hsame; [reflexivity|]. intros _. cbn [SB.setSelectedIndex SB.selectedIndex]. lia.
    + destruct (at_index_in_range _ _ Hrange) as (result & -> & Hin). apply Hsel, Hin.
    + apply Hnone. apply InRange_reset; [assumption | now left].
    + apply Hnone, Hkeep.
  - destruct (SB.open st); [|apply Hnone, Hkeep].
    destruct (nth_error (results (SB.query st) searchIndex) i) as [result|] eqn:E;
      [|apply Hnone, Hkeep].
    apply Hsel. eapply nth_error_In, E.
  - destruct (SB.open st && (i <? length (results (SB.query st) searchIndex))%nat)
      eqn:Hguard; [|apply Hnone, Hkeep].
    apply andb_true_iff in Hguard. destruct Hguard as [_ Hi]. apply Nat.ltb_lt in Hi.
    apply Hnone, Hsame; [reflexivity|]. intros _.
    cbn [SB.setSelectedIndex SB.selectedIndex]. lia.
  - destruct (Str.truthy (SB.query st)); [|apply Hnone, Hkeep].
    eexists _, _. split; [reflexivity|]. split.
    + apply InRange_reset; [assumption|]. left.
      unfold SB.onFocus. destruct (Str.truthy _); reflexivity.
    + intros item [[=]|[]].
  - apply Hnone. apply InRange_reset; [assumption | now left].
Qed.

Lemma run_InRange evs : forall st,
  SB.InRange searchIndex st ->
  exists st' calls,
    SB.run searchIndex evs st = Some (st', calls) /\
    SB.InRange searchIndex st' /\
    forall item, In (Some item) calls -> In item searchIndex.
Proof.
  induction evs as [|ev evs IH]; intros st Hinv; cbn [SB.run].
  - exists st, []. split; [reflexivity|]. split; [assumption | intros item []].
  - destruct (step_InRange ev st Hinv) as (st1 & calls1 & -> & Hinv1 & Hcalls1).
    destruct (IH st1 Hinv1) as (st2 & calls2 & -> & Hinv2 & Hcalls2).
    exists st2, (calls1 ++ calls2)%list. split; [reflexivity|]. split; [assumption|].
    intros item Hin. apply in_app_or in Hin. destruct Hin; auto.
Qed.

(** X16: from the initial state every sequence of events runs to the end
    without the [TypeError] of choosing a missing result; afterwards
    [selectedIndex] is the position of a result whenever there are
    results, and every entry reported to [onSelect] is an entry of the
    index. *)
Theorem run_from_initial (evs : list SB.Event) :
  exists st calls,
    SB.run searchIndex evs SB.initial = Some (st, calls) /\
    SB.InRange searchIndex st /\
    forall item, In (Some item) calls -> In item searchIndex.
Proof.
  apply run_InRange. left. reflexivity.
Qed.

End SearchBarFacts.

Section SearchBarExamples.

Local Open Scope string_scope.

(** Typing [san jose], moving down twice (the second time at the last
    row) and pressing Enter chooses the second entry and closes the
    dropdown; a selected index past the results, which no run from the
    initial state reaches, would make Enter fail. *)
Example run_typeAndChoose :
  SB.run Sample.sanJoseIndex Sample.typeAndChoose SB.initial =
  Some ({| SB.query := "san jose del monte, bulacan"; SB.open := false;
           SB.selectedIndex := 0 |},
        [nth_error Sample.sanJoseIndex 1]) /\
  SB.step Sample.sanJoseIndex (SB.KeyDown SB.Enter)
    {| SB.query := "san jose"; SB.open := true; SB.selectedIndex := 5 |} = None.
Proof. split; reflexivity. Qed.

(** Clearing: the query is emptied and [null] reported; [focus()] runs
    [onFocus] with the query of the render at hand, [san], which sets
    [open] again.  Focusing an input whose query is blank opens
    nothing. *)
Example step_clear :
  (SB.step Sample.sanJoseIndex SB.ClickClear
     {| SB.query := "san"; SB.open := true; SB.selectedIndex := 1 |} =
   Some ({| SB.query := EmptyString; SB.open := true; SB.selectedIndex := 0 |},
         [None])) /\
  (SB.step Sample.sanJoseIndex SB.Focus
     {| SB.query := "  "; SB.open := false; SB.selectedIndex := 0 |} =
   Some ({| SB.query := "  "; SB.open := false; SB.selectedIndex := 0 |}, [])).
Proof. split; reflexivity. Qed.

End SearchBarExamples.

(** ** The statistics of the selected candidate *)

Section StatsSort.

Context {A : Type}.
Variable cmp : A -> A -> R.

Local Open Scope R_scope.

Lemma stats_insertSorted_perm x l : Permutation (Stats.insertSorted cmp x l) (x :: l).
Proof.
  induction l as [|y l IH]; cbn [Stats.insertSorted]; [reflexivity|].
  destruct (Js.leb (cmp x y) 0); [reflexivity|].
  rewrite IH. apply perm_swap.
Qed.

Lemma stats_sort_perm l : Permutation (Stats.sort cmp l) l.
Proof.
  induction l as [|x l IH]; cbn [Stats.sort]; [reflexivity|].
  rewrite stats_insertSorted_perm, IH. reflexivity.
Qed.

Hypothesis cmp_total : forall a b, cmp a b <= 0 \/ cmp b a <= 0.
Hypothesis cmp_trans : forall a b c, cmp a b <= 0 -> cmp b c <= 0 -> cmp a c <= 0.

Lemma stats_insertSorted_sorted x l :
  StronglySorted (fun a b => cmp a b <= 0) l ->
  StronglySorted (fun a b => cmp a b <= 0) (Stats.insertSorted cmp x l).
Proof.
  induction l as [|y l IH]; cbn [Stats.insertSorted]; intros Hs.
  - constructor; constructor.
  - inversion Hs as [|y' l' Hl Hy]; subst.
    destruct (Js.leb (cmp x y) 0) eqn:E.
    + apply leb_true in E. constructor; [assumption|].
      constructor; [assumption|].
      eapply Forall_impl; [|exact Hy]. intros z Hz. cbv beta in *.
      eapply cmp_trans; eassumption.
    + apply leb_false in E. constructor; [apply IH, Hl|].
      apply (Permutation_Forall (Permutation_sym (stats_insertSorted_perm x l))).
      constructor; [|assumption].
      destruct (cmp_total x y) as [H|H]; [lra | exact H].
Qed.

Lemma stats_sort_sorted l :
  StronglySorted (fun a b => cmp a b <= 0) (Stats.sort cmp l).
Proof.
  induction l as [|x l IH]; cbn [Stats.sort]; [constructor|].
  apply stats_insertSorted_sorted, IH.
Qed.

End StatsSort.

Section StatsFacts.

Import IndexSpec.

Local Open Scope R_scope.

Variable cId : string.

(** *** The map of provinces *)

Lemma get_addTo k province v av mp :
  Stats.get k (Stats.addTo province v av mp) =
  if String.eqb province k then
    match Stats.get k mp with
    | Some e => Some {| Stats.votes := Stats.votes e + v;
                        Stats.actual := Stats.actual e + av |}
    | None => None
    end
  else Stats.get k mp.
Proof.
  induction mp as [|[k' e] mp IH]; cbn [Stats.addTo Stats.get].
  - destruct (String.eqb province k); reflexivity.
  - destruct (String.eqb_spec k' province) as [->|Hne]; cbn [Stats.get].
    + destruct (String.eqb province k); reflexivity.
    + destruct (String.eqb_spec k' k) as [->|Hne'].
      * rewrite (proj2 (String.eqb_neq province k)) by congruence. reflexivity.
      * exact IH.
Qed.

Lemma get_app k mp province e :
  Stats.get k (mp ++ [(province, e)]) =
  match Stats.get k mp with
  | Some x => Some x
  | None => if String.eqb province k then Some e else None
  end.
Proof.
  induction mp as [|[k' e'] mp IH]; cbn [app Stats.get]; [reflexivity|].
  destruct (String.eqb k' k); [reflexivity | exact IH].
Qed.

Lemma get_None_keys k mp : Stats.get k mp = None <-> ~ In k (map fst mp).
Proof.
  induction mp as [|[k' e] mp IH]; cbn [Stats.get map fst In]; [tauto|].
  destruct (String.eqb_spec k' k) as [->|Hne].
  - split; [discriminate | intros H; exfalso; apply H; now left].
  - rewrite IH. tauto.
Qed.

Lemma keys_addTo province v av mp :
  map fst (Stats.addTo province v av mp) = map fst mp.
Proof.
  induction mp as [|[k' e] mp IH]; cbn [Stats.addTo map fst]; [reflexivity|].
  destruct (String.eqb k' province); cbn [map fst]; [reflexivity|].
  rewrite IH. reflexivity.
Qed.

Lemma record_NoDup province v av mp :
  NoDup (map fst mp) -> NoDup (map fst (Stats.record province v av mp)).
Proof.
  intros H. unfold Stats.record.
  destruct (Stats.get province mp) eqn:E.
  - rewrite keys_addTo. exact H.
  - rewrite map_app. cbn [map fst].
    apply (Permutation_NoDup (Permutation_cons_append _ _)).
    constructor; [apply get_None_keys, E | exact H].
Qed.

(** The votes and voters of a province after one more record. *)
Lemma record_totals k province v av mp :
  Stats.votesIn k (Stats.record province v av mp) =
    Stats.votesIn k mp + (if String.eqb province k then v else 0) /\
  Stats.actualIn k (Stats.record province v av mp) =
    Stats.actualIn k mp + (if String.eqb province k then av else 0) /\
  isSome (Stats.get k (Stats.record province v av mp)) =
    isSome (Stats.get k mp) || String.eqb province k.
Proof.
  unfold Stats.votesIn, Stats.actualIn, Stats.record.
  destruct (Stats.get province mp) as [existing|] eqn:E.
  - rewrite get_addTo. destruct (String.eqb_spec province k) as [<-|Hne].
    + rewrite E. cbn. repeat split; lra.
    + destruct (Stats.get k mp); cbn; rewrite ?orb_false_r; repeat split; lra.
  - rewrite get_app. destruct (String.eqb_spec province k) as [<-|Hne].
    + rewrite E. cbn. repeat split; lra.
    + destruct (Stats.get k mp); cbn; repeat split; lra.
Qed.

Lemma get_In k e mp : NoDup (map fst mp) -> In (k, e) mp -> Stats.get k mp = Some e.
Proof.
  induction mp as [|[k' e'] mp IH]; [intros _ []|].
  cbn [map fst Stats.get]. intros Hnd [[= -> ->]|Hin].
  - rewrite String.eqb_refl. reflexivity.
  - inversion Hnd as [|x l Hnotin Hnd']; subst.
    destruct (String.eqb_spec k' k) as [->|Hne]; [|apply IH; assumption].
    exfalso. apply Hnotin. apply in_map_iff. exists (k, e). auto.
Qed.

Lemma get_Some_In k e mp : Stats.get k mp = Some e -> In (k, e) mp.
Proof.
  induction mp as [|[k' e'] mp IH]; [discriminate|]. cbn [Stats.get].
  destruct (String.eqb_spec k' k) as [->|Hne].
  - intros [= ->]. now left.
  - intros H. right. apply IH, H.
Qed.

(** *** The loop *)

Lemma ofProvince_cons k x l :
  Stats.ofProvince k (x :: l) =
  if String.eqb (BP.p x) k then x :: Stats.ofProvince k l else Stats.ofProvince k l.
Proof. reflexivity. Qed.

(** The state of the loop of [stats] after a list of features: the two
    totals and, for each province, the votes and the voters of its
    records. *)
Lemma stats_loop feats : forall tv ta mp,
  let '(tv', ta', mp') := fold_left (Stats.step cId) feats (tv, ta, mp) in
  tv' = tv + Stats.sumOf (fun x => votesOf x cId) (propsOfList feats) /\
  ta' = ta + Stats.sumOf avOf (propsOfList feats) /\
  (forall k,
      Stats.votesIn k mp' =
        Stats.votesIn k mp +
        Stats.sumOf (fun x => votesOf x cId) (Stats.ofProvince k (propsOfList feats)) /\
      Stats.actualIn k mp' =
        Stats.actualIn k mp +
        Stats.sumOf avOf (Stats.ofProvince k (propsOfList feats)) /\
      isSome (Stats.get k mp') =
        isSome (Stats.get k mp) ||
        existsb (fun x => String.eqb (BP.p x) k) (propsOfList feats)) /\
  (NoDup (map fst mp) -> NoDup (map fst mp')).
Proof.
  induction feats as [|feat feats IH]; intros tv ta mp.
  - cbn. split; [lra|]. split; [lra|]. split; [|auto].
    intros k. rewrite orb_false_r. repeat split; lra.
  - cbn [fold_left]. rewrite propsOfList_cons. unfold Stats.step at 2.
    destruct (properties feat) as [props|]; [|apply IH].
    cbv zeta.
    specialize (IH (tv + votesOf props cId) (ta + avOf props)
                  (Stats.record (BP.p props) (votesOf props cId) (avOf props) mp)).
    destruct (fold_left (Stats.step cId) feats _) as [[tv' ta'] mp'].
    destruct IH as (Htv & Hta & Hmap & Hnd).
    split; [unfold Stats.sumOf in *; cbn [fold_right]; lra|].
    split; [unfold Stats.sumOf in *; cbn [fold_right]; lra|]. split.
    + intros k. destruct (Hmap k) as (Hv & Ha & Hs).
      destruct (record_totals k (BP.p props) (votesOf props cId) (avOf props) mp)
        as (Rv & Ra & Rs).
      rewrite ofProvince_cons. split; [|split].
      * rewrite Hv, Rv. destruct (String.eqb (BP.p props) k);
          unfold Stats.sumOf; cbn [fold_right]; lra.
      * rewrite Ha, Ra. destruct (String.eqb (BP.p props) k);
          unfold Stats.sumOf; cbn [fold_right]; lra.
      * rewrite Hs, Rs. cbn [existsb]. rewrite orb_assoc. reflexivity.
    + intros H. apply Hnd, record_NoDup, H.
Qed.

End StatsFacts.

Section StatsSummary.

Import IndexSpec.

Local Open Scope R_scope.

Lemma StronglySorted_firstn {A : Type} (R : A -> A -> Prop) n : forall l,
  StronglySorted R l -> StronglySorted R (firstn n l).
Proof.
  induction n as [|n IH]; intros l Hs; [constructor|].
  destruct Hs as [|x l Hl Hx]; cbn [firstn]; constructor.
  - apply IH, Hl.
  - rewrite Forall_forall in *. intros y Hy. apply Hx, (In_firstn y n l Hy).
Qed.

Lemma StronglySorted_app_le {A : Type} (R : A -> A -> Prop) l1 : forall l2 a b,
  StronglySorted R (l1 ++ l2) -> In a l1 -> In b l2 -> R a b.
Proof.
  induction l1 as [|x l1 IH]; intros l2 a b Hs Ha Hb; [destruct Ha|].
  cbn [app] in Hs. inversion Hs as [|x' l' Hl Hx]; subst.
  destruct Ha as [<-|Ha].
  - rewrite Forall_forall in Hx. apply Hx, in_or_app. now right.
  - eapply IH; eassumption.
Qed.

Lemma StronglySorted_impl {A : Type} (R R' : A -> A -> Prop) l :
  (forall a b, R a b -> R' a b) -> StronglySorted R l -> StronglySorted R' l.
Proof.
  intros Himpl. induction 1 as [|x l Hl IH Hx]; constructor; [exact IH|].
  eapply Forall_impl; [|exact Hx]. intros y. apply Himpl.
Qed.

Lemma NoDup_firstn {A : Type} n (l : list A) : NoDup l -> NoDup (firstn n l).
Proof.
  intros H. rewrite <- (firstn_skipn n l) in H. apply NoDup_app_remove_r in H. exact H.
Qed.

Lemma name_toProvince entry : Stats.name (Stats.toProvince entry) = fst entry.
Proof. destruct entry as [k e]. reflexivity. Qed.

(** The parts of [stats]: the totals, the map of provinces and the sorted
    list of provinces cut to [topProvinces]. *)
Lemma stats_summary data candidate :
  exists tv ta mp sorted,
    Stats.stats data (Some candidate) =
      {| Stats.totalVotes := tv;
         Stats.avgShare := if gtb ta 0 then (tv / ta) * 100 else 0;
         Stats.topProvinces := firstn 5 sorted |} /\
    tv = Stats.sumOf (fun x => votesOf x (CC.id candidate)) (propsOf data) /\
    ta = Stats.sumOf avOf (propsOf data) /\
    NoDup (map fst mp) /\
    (forall k,
        Stats.votesIn k mp =
          Stats.sumOf (fun x => votesOf x (CC.id candidate))
            (Stats.ofProvince k (propsOf data)) /\
        Stats.actualIn k mp = Stats.sumOf avOf (Stats.ofProvince k (propsOf data)) /\
        isSome (Stats.get k mp) =
          existsb (fun x => String.eqb (BP.p x) k) (propsOf data)) /\
    Permutation sorted (map Stats.toProvince mp) /\
    StronglySorted Stats.moreVotes sorted.
Proof.
  pose proof (stats_loop (CC.id candidate) (features data) 0 0 []) as Hloop.
  match type of Hloop with
  | context [fold_left ?f ?l ?i] =>
      destruct (fold_left f l i) as [[tv ta] mp] eqn:Hfold
  end.
  destruct Hloop as (Htv & Hta & Hmap & Hnd).
  exists tv, ta, mp,
    (Stats.sort (fun a b => Stats.provinceVotes b - Stats.provinceVotes a)
       (map Stats.toProvince mp)).
  split.
  { unfold Stats.stats. destruct (features data) as [|feat feats] eqn:E.
    - cbn in Hfold. injection Hfold as <- <- <-.
      rewrite (proj2 (gtb_false 0 0)) by lra. reflexivity.
    - match goal with
      | |- context [fold_left ?f ?l ?i] =>
          replace (fold_left f l i) with (tv, ta, mp)
            by (symmetry; first [exact Hfold | rewrite E; exact Hfold])
      end.
      reflexivity. }
  fold (propsOf data) in Htv, Hta, Hmap.
  split; [lra|]. split; [lra|]. split; [apply Hnd; constructor|].
  split.
  { intros k. destruct (Hmap k) as (Hv & Ha & Hs).
    unfold Stats.votesIn, Stats.actualIn in Hv, Ha. cbn [Stats.get] in Hv, Ha, Hs.
    cbn [isSome orb] in Hs. repeat split; [| |exact Hs].
    - fold (Stats.votesIn k mp) in Hv. lra.
    - fold (Stats.actualIn k mp) in Ha. lra. }
  split; [apply stats_sort_perm|].
  apply (StronglySorted_impl
           (fun a b => Stats.provinceVotes b - Stats.provinceVotes a <= 0)).
  { intros a b H. unfold Stats.moreVotes. lra. }
  apply (stats_sort_sorted (fun a b => Stats.provinceVotes b - Stats.provinceVotes a)).
  - intros a b. destruct (Rle_or_lt (Stats.provinceVotes b) (Stats.provinceVotes a)); lra.
  - intros a b c. lra.
Qed.

Lemma sumOf_le f g l :
  (forall x, In x l -> f x <= g x) -> Stats.sumOf f l <= Stats.sumOf g l.
Proof.
  induction l as [|x l IH]; intros H; cbn [Stats.sumOf fold_right]; [lra|].
  fold (Stats.sumOf f l) (Stats.sumOf g l).
  pose proof (H x (or_introl eq_refl)).
  assert (Stats.sumOf f l <= Stats.sumOf g l) by (apply IH; intros y Hy; apply H; now right).
  lra.
Qed.

Lemma sumOf_nonneg f l : (forall x, In x l -> 0 <= f x) -> 0 <= Stats.sumOf f l.
Proof.
  induction l as [|x l IH]; intros H; cbn [Stats.sumOf fold_right]; [lra|].
  fold (Stats.sumOf f l).
  pose proof (H x (or_introl eq_refl)).
  assert (0 <= Stats.sumOf f l) by (apply IH; intros y Hy; apply H; now right).
  lra.
Qed.

(** X17: when no feature has negative votes or more votes than voters,
    [totalVotes] is the sum of the votes of the candidate over the
    features, and [avgShare] is a percentage between 0 and 100. *)
Theorem stats_average (data : BarangayCollection) (candidate : CC.t) :
  (forall x, In x (propsOf data) -> 0 <= votesOf x (CC.id candidate) <= avOf x) ->
  let s := Stats.stats data (Some candidate) in
  Stats.totalVotes s =
    Stats.sumOf (fun x => votesOf x (CC.id candidate)) (propsOf data) /\
  0 <= Stats.totalVotes s /\
  0 <= Stats.avgShare s <= 100.
Proof.
  intros Hvotes; cbv zeta.
  destruct (stats_summary data candidate)
    as (tv & ta & mp & sorted & -> & Htv & Hta & _).
  cbn [Stats.totalVotes Stats.avgShare].
  assert (H0 : 0 <= tv).
  { rewrite Htv. apply sumOf_nonneg. intros x Hx. apply Hvotes, Hx. }
  assert (H1 : tv <= ta).
  { rewrite Htv, Hta. apply sumOf_le. intros x Hx. apply Hvotes, Hx. }
  split; [exact Htv|]. split; [exact H0|].
  destruct (gtb ta 0) eqn:E; [|lra]. apply gtb_true in E.
  assert (Hq : 0 <= tv / ta <= 1).
  { split; [apply Rle_mult_inv_pos; lra|].
    replace 1 with (ta / ta) by (field; lra).
    apply Rmult_le_compat_r; [left; now apply Rinv_0_lt_compat | lra]. }
  lra.
Qed.

Lemma stats_average_witness :
  let s := Stats.stats Sample.twoProvinces (Some Sample.s01) in
  Stats.totalVotes s =
    Stats.sumOf (fun x => votesOf x (CC.id Sample.s01)) (propsOf Sample.twoProvinces) /\
  0 <= Stats.totalVotes s /\
  0 <= Stats.avgShare s <= 100.
Proof.
  apply (stats_average Sample.twoProvinces Sample.s01).
  intros x [<-|[<-|[<-|[]]]]; unfold votesOf, avOf; cbn; lra.
Defined.

(** X18: [topProvinces] holds at most five provinces, no province twice,
    with the province of most votes first. *)
Theorem topProvinces_shape (data : BarangayCollection) (candidate : CC.t) :
  let top := Stats.topProvinces (Stats.stats data (Some candidate)) in
  (length top <= 5)%nat /\
  NoDup (map Stats.name top) /\
  StronglySorted Stats.moreVotes top.
Proof.
  cbv zeta.
  destruct (stats_summary data candidate)
    as (tv & ta & mp & sorted & -> & _ & _ & Hnd & _ & Hperm & Hsorted).
  cbn [Stats.topProvinces].
  split; [apply firstn_le_length|]. split; [|apply StronglySorted_firstn, Hsorted].
  rewrite <- firstn_map. apply NoDup_firstn.
  apply (Permutation_NoDup (Permutation_map Stats.name (Permutation_sym Hperm))).
  rewrite map_map. rewrite (map_ext _ fst) by apply name_toProvince. exact Hnd.
Qed.

(** X19: each province of [topProvinces] is a province of the collection;
    its votes are the sum of the votes of the candidate over the features
    of the province, and its share is that sum over the sum of the voters,
    as a percentage, or 0 when the province has no voters. *)
Theorem topProvinces_totals (data : BarangayCollection) (candidate : CC.t) :
  Forall
    (fun t =>
       let records := Stats.ofProvince (Stats.name t) (propsOf data) in
       let v := Stats.sumOf (fun x => votesOf x (CC.id candidate)) records in
       let av := Stats.sumOf avOf records in
       records <> [] /\
       Stats.provinceVotes t = v /\
       Stats.share t = if gtb av 0 then (v / av) * 100 else 0)
    (Stats.topProvinces (Stats.stats data (Some candidate))).
Proof.
  destruct (stats_summary data candidate)
    as (tv & ta & mp & sorted & -> & _ & _ & Hnd & Hmap & Hperm & _).
  cbn [Stats.topProvinces]. apply Forall_forall. intros t Hin.
  apply In_firstn, (Permutation_in _ Hperm), in_map_iff in Hin.
  destruct Hin as ([k e] & <- & Hin). cbv zeta.
  cbn [Stats.toProvince Stats.name Stats.provinceVotes Stats.share].
  pose proof (get_In k e mp Hnd Hin) as Hget.
  destruct (Hmap k) as (Hv & Ha & Hs).
  unfold Stats.votesIn, Stats.actualIn in Hv, Ha. rewrite Hget in Hv, Ha, Hs.
  cbn [isSome] in Hs. split.
  - intros Hnil. symmetry in Hs. rewrite existsb_exists in Hs.
    destruct Hs as (x & Hx & Hp).
    assert (Hx' : In x (Stats.ofProvince k (propsOf data)))
      by (apply filter_In; auto).
    rewrite Hnil in Hx'. destruct Hx'.
  - rewrite <- Hv, <- Ha. split; reflexivity.
Qed.

(** X20: [topProvinces] are the provinces of most votes: a province of
    the collection is listed, or five provinces are listed and each has at
    least the votes of that province. *)
Theorem topProvinces_most_votes (data : BarangayCollection) (candidate : CC.t) :
  let top := Stats.topProvinces (Stats.stats data (Some candidate)) in
  Forall
    (fun x =>
       (exists t, In t top /\ Stats.name t = BP.p x) \/
       (length top = 5%nat /\
        Forall
          (fun t =>
             Stats.sumOf (fun y => votesOf y (CC.id candidate))
               (Stats.ofProvince (BP.p x) (propsOf data)) <= Stats.provinceVotes t)
          top))
    (propsOf data).
Proof.
  cbv zeta.
  destruct (stats_summary data candidate)
    as (tv & ta & mp & sorted & -> & _ & _ & Hnd & Hmap & Hperm & Hsorted).
  cbn [Stats.topProvinces]. apply Forall_forall. intros x Hx.
  destruct (Hmap (BP.p x)) as (Hv & _ & Hs).
  assert (Hex : existsb (fun y => String.eqb (BP.p y) (BP.p x)) (propsOf data) = true).
  { apply existsb_exists. exists x. split; [assumption | apply String.eqb_refl]. }
  rewrite Hex in Hs. destruct (Stats.get (BP.p x) mp) as [e|] eqn:Hget; [|discriminate].
  unfold Stats.votesIn in Hv. rewrite Hget in Hv.
  assert (Hin : In (Stats.toProvince (BP.p x, e)) sorted).
  { apply (Permutation_in _ (Permutation_sym Hperm)), in_map, get_Some_In, Hget. }
  rewrite <- (firstn_skipn 5 sorted) in Hin, Hsorted.
  apply in_app_or in Hin. destruct Hin as [Hin|Hin].
  - left. exists (Stats.toProvince (BP.p x, e)). split; [exact Hin | reflexivity].
  - right. split.
    + apply firstn_length_le.
      destruct (Nat.le_gt_cases 5 (length sorted)) as [H|H]; [exact H|].
      rewrite skipn_all2 in Hin by lia. destruct Hin.
    + apply Forall_forall. intros t Ht.
      pose proof (StronglySorted_app_le _ _ _ t _ Hsorted Ht Hin) as Hle.
      unfold Stats.moreVotes in Hle. cbn [Stats.toProvince Stats.provinceVotes] in Hle.
      rewrite <- Hv. exact Hle.
Qed.

End StatsSummary.

(** ** Municipality and barangay selections *)

Section MatchFacts.

(** X23: a feature that a barangay entry matches is matched by the
    municipality entry of the same municipality too, for any selection of
    that municipality and province; so choosing the municipality
    highlights every feature that one of its barangay entries highlights. *)
Theorem barangay_match_municipality (brgy muni : SearchResult)
  (props : BarangayProperties) :
  type brgy = barangayType -> type muni = municipalityType ->
  municipality muni = municipality brgy -> province muni = province brgy ->
  isMatch (Some brgy) props = true ->
  isMatch (Some muni) props = true /\ zoomMatch muni props = true.
Proof.
  intros Tb Tm Hm Hp. unfold isMatch, zoomMatch. rewrite Tb, Tm, Hm, Hp.
  intros H. apply andb_true_iff in H. destruct H as [H H3].
  apply andb_true_iff in H. destruct H as [_ H2].
  rewrite H2, H3. auto.
Qed.

Lemma barangay_match_municipality_witness :
  isMatch (Some (muniEntry Sample.lahugProps)) Sample.lahugProps = true /\
  zoomMatch (muniEntry Sample.lahugProps) Sample.lahugProps = true.
Proof.
  apply (barangay_match_municipality (brgyEntry Sample.lahugProps)
           (muniEntry Sample.lahugProps) Sample.lahugProps);
    reflexivity.
Defined.

End MatchFacts.
